(** * StudentioBot: launch-data verification and SSE stream consumption

    A shallow embedding of the parts of the repository that decide the
    behaviour of
    - [src/lib/verifyTelegram.js]   ([toHex], [hmacSHA256],
      [verifyTelegramInitData], [extractUserId]),
    - [src/pages/api/tip.js]        ([handler]),
    - [src/frontend/pages/index.tsx] ([parseSSELines], [ssePost],
      [handleSend]),
    - [src/unnamed/part_001]        ([send], the plain streaming chat page),
    - [src/unnamed/part_002]        (another copy of the page, with its
      own [handleSend]).

    JavaScript strings are sequences of UTF-16 code units; bytes and code
    units are [N].  The platform functions the sources call
    ([URLSearchParams], [TextEncoder], [TextDecoder], [JSON.parse],
    Web Crypto HMAC with SHA-256) are modelled after their standards. *)

From Stdlib Require Import NArith List String Ascii Lia Bool.
From stdpp Require Import base decidable option list sorting gmap.

Set Warnings "-register-all".
Open Scope N_scope.

(** ** JavaScript strings *)

Module JsString.

(** A string value: its UTF-16 code units. *)
Abbreviation jsstr := (list N).

(** An ASCII literal as a JavaScript string. *)
Definition lit (s : string) : jsstr :=
  map N_of_ascii (list_ascii_of_string s).

(** The same, with every apostrophe read as a double quote (U+0022), to
    write JSON texts. *)
Definition jsq (s : string) : jsstr :=
  map (fun c => if c =? 39 then 34 else c) (lit s).

Definition eqb (a b : jsstr) : bool := bool_decide (a = b).

(** [s.startsWith(p)] *)
Fixpoint startsWith (p s : jsstr) : bool :=
  match p, s with
  | [], _ => true
  | c :: p', d :: s' => (c =? d) && startsWith p' s'
  | _ :: _, [] => false
  end.

(** [s.slice(a)] and [s.slice(a, b)] for indices [0 <= a], [0 <= b]. *)
Definition slice_from (a : nat) (s : jsstr) : jsstr := drop a s.
Definition slice (a b : nat) (s : jsstr) : jsstr := take (b - a) (drop a s).

(** [s.indexOf(p)] on the suffix [s]; [None] is JavaScript's [-1]. *)
Fixpoint find_first (p s : jsstr) : option nat :=
  if startsWith p s then Some 0%nat
  else match s with
       | [] => None
       | _ :: s' => S <$> find_first p s'
       end.

(** [s.indexOf(p, start)] *)
Definition indexOf (p : jsstr) (start : nat) (s : jsstr) : option nat :=
  (fun i => (start `min` length s + i)%nat) <$> find_first p (drop start s).

(** [s.lastIndexOf(p)] on the suffix [s]. *)
Fixpoint find_last (p s : jsstr) : option nat :=
  match s with
  | [] => if startsWith p [] then Some 0%nat else None
  | _ :: s' =>
      match find_last p s' with
      | Some i => Some (S i)
      | None => if startsWith p s then Some 0%nat else None
      end
  end.

Definition lastIndexOf (p s : jsstr) : option nat := find_last p s.

(** [s.split(sep)] for a one-unit separator. *)
Fixpoint split_on (sep : N) (cur : jsstr) (s : jsstr) : list jsstr :=
  match s with
  | [] => [rev cur]
  | c :: s' =>
      if c =? sep then rev cur :: split_on sep [] s'
      else split_on sep (c :: cur) s'
  end.

Definition splitOn (sep : N) (s : jsstr) : list jsstr := split_on sep [] s.

(** [parts.join(sep)] *)
Fixpoint join (sep : jsstr) (parts : list jsstr) : jsstr :=
  match parts with
  | [] => []
  | [p] => p
  | p :: rest => p ++ sep ++ join sep rest
  end.

(** ECMAScript WhiteSpace and LineTerminator code points, all in the
    Basic Multilingual Plane: what [trim] removes. *)
Definition is_space (c : N) : bool :=
  (c =? 9) || (c =? 10) || (c =? 11) || (c =? 12) || (c =? 13) ||
  (c =? 32) || (c =? 160) || (c =? 5760) ||
  ((8192 <=? c) && (c <=? 8202)) ||
  (c =? 8232) || (c =? 8233) || (c =? 8239) || (c =? 8287) ||
  (c =? 12288) || (c =? 65279).

Fixpoint trimStart (s : jsstr) : jsstr :=
  match s with
  | c :: s' => if is_space c then trimStart s' else s
  | [] => []
  end.

Definition trim (s : jsstr) : jsstr := rev (trimStart (rev (trimStart s))).

(** The order of [<] on strings and of the default [Array.prototype.sort]:
    lexicographic on code units. *)
Fixpoint leb (a b : jsstr) : bool :=
  match a, b with
  | [], _ => true
  | _ :: _, [] => false
  | c :: a', d :: b' => (c <? d) || ((c =? d) && leb a' b')
  end.

Definition le (a b : jsstr) : Prop := leb a b = true.

(** The line feed, U+000A. *)
Definition LF : jsstr := [10].

End JsString.

Import JsString.

(** ** UTF-8: [TextEncoder] and [TextDecoder]

    After the WHATWG Encoding Standard: the UTF-8 encoder applied to the
    scalar values of a string, and the UTF-8 decoder as the byte-at-a-time
    state machine that a streaming [TextDecoder] keeps between calls. *)

Module Utf8.

Abbreviation bytes := (list N).

Definition is_high (c : N) : bool := (55296 <=? c) && (c <=? 56319).
Definition is_low (c : N) : bool := (56320 <=? c) && (c <=? 57343).

(** Conversion to a USVString: a surrogate pair is one scalar value, a
    lone surrogate becomes U+FFFD. *)
Fixpoint to_scalars (s : jsstr) : list N :=
  match s with
  | [] => []
  | c :: s' =>
      if is_high c then
        match s' with
        | d :: s'' =>
            if is_low d
            then (65536 + N.shiftl (c - 55296) 10 + (d - 56320)) :: to_scalars s''
            else 65533 :: to_scalars s'
        | [] => [65533]
        end
      else if is_low c then 65533 :: to_scalars s'
      else c :: to_scalars s'
  end.

(** A scalar value as UTF-16 code units. *)
Definition of_scalar (cp : N) : jsstr :=
  if cp <? 65536 then [cp]
  else [55296 + N.shiftr (cp - 65536) 10; 56320 + N.land (cp - 65536) 1023].

Definition of_scalars (cps : list N) : jsstr := flat_map of_scalar cps.

Definition encode_scalar (cp : N) : bytes :=
  if cp <? 128 then [cp]
  else if cp <? 2048 then
    [N.lor 192 (N.shiftr cp 6); N.lor 128 (N.land cp 63)]
  else if cp <? 65536 then
    [N.lor 224 (N.shiftr cp 12); N.lor 128 (N.land (N.shiftr cp 6) 63);
     N.lor 128 (N.land cp 63)]
  else
    [N.lor 240 (N.shiftr cp 18); N.lor 128 (N.land (N.shiftr cp 12) 63);
     N.lor 128 (N.land (N.shiftr cp 6) 63); N.lor 128 (N.land cp 63)].

(** [new TextEncoder().encode(s)] *)
Definition encode (s : jsstr) : bytes := flat_map encode_scalar (to_scalars s).

(** The decoder's state between bytes. *)
Record dstate := DState {
  code_point : N;
  bytes_seen : N;
  bytes_needed : N;
  lower : N;
  upper : N
}.

Definition dinit : dstate := DState 0 0 0 128 191.

(** A byte read when no sequence is in progress. *)
Definition lead (b : N) : dstate * list N :=
  if b <=? 127 then (dinit, [b])
  else if (194 <=? b) && (b <=? 223) then (DState (N.land b 31) 0 1 128 191, [])
  else if (224 <=? b) && (b <=? 239) then
    (DState (N.land b 15) 0 2 (if b =? 224 then 160 else 128)
            (if b =? 237 then 159 else 191), [])
  else if (240 <=? b) && (b <=? 244) then
    (DState (N.land b 7) 0 3 (if b =? 240 then 144 else 128)
            (if b =? 244 then 143 else 191), [])
  else (dinit, [65533]).

(** One byte of input: the next state and the scalar values emitted.  A
    byte that breaks a sequence yields U+FFFD and is read again as a
    first byte. *)
Definition step (st : dstate) (b : N) : dstate * list N :=
  if bytes_needed st =? 0 then lead b
  else if negb ((lower st <=? b) && (b <=? upper st)) then
    let '(st', out) := lead b in (st', 65533 :: out)
  else
    let cp := N.lor (N.shiftl (code_point st) 6) (N.land b 63) in
    if bytes_seen st + 1 =? bytes_needed st then (dinit, [cp])
    else (DState cp (bytes_seen st + 1) (bytes_needed st) 128 191, []).

Fixpoint run (st : dstate) (bs : bytes) : dstate * list N :=
  match bs with
  | [] => (st, [])
  | b :: bs' =>
      let '(st1, out1) := step st b in
      let '(st2, out2) := run st1 bs' in
      (st2, out1 ++ out2)
  end.

(** End of input: an unfinished sequence yields U+FFFD. *)
Definition finish (st : dstate) : list N :=
  if bytes_needed st =? 0 then [] else [65533].

(** "UTF-8 decode without BOM" of a complete byte sequence. *)
Definition decode_without_BOM (bs : bytes) : jsstr :=
  let '(st, out) := run dinit bs in of_scalars (out ++ finish st).

(** A [TextDecoder('utf-8')] object: the decoder state and the "BOM seen"
    flag. *)
Record TextDecoder := MkDecoder { dec_state : dstate; bom_seen : bool }.

Definition newTextDecoder : TextDecoder := MkDecoder dinit false.

(** [decoder.decode(value, { stream: true })]: the state is kept, nothing
    is flushed, and the first scalar value ever produced is dropped when
    it is U+FEFF. *)
Definition decode_stream (d : TextDecoder) (value : bytes) : TextDecoder * jsstr :=
  let '(st, out) := run (dec_state d) value in
  match out with
  | [] => (MkDecoder st (bom_seen d), [])
  | cp :: rest =>
      (MkDecoder st true,
       of_scalars (if negb (bom_seen d) && (cp =? 65279) then rest else out))
  end.

End Utf8.

(** ** SHA-256 and HMAC

    What [crypto.subtle.sign("HMAC", key, data)] computes for a key imported
    with [{ name: "HMAC", hash: "SHA-256" }]: FIPS 180-4 and RFC 2104, on
    32-bit words held in [N] with the wrap-around written out. *)

Module Sha256.

Import Utf8.

Definition w32 (x : N) : N := x mod 4294967296.
Definition add32 (x y : N) : N := w32 (x + y).
Definition rotr (n x : N) : N :=
  N.lor (N.shiftr x n) (w32 (N.shiftl x (32 - n))).
Definition not32 (x : N) : N := 4294967295 - x.

Definition Ch (x y z : N) : N := N.lxor (N.land x y) (N.land (not32 x) z).
Definition Maj (x y z : N) : N :=
  N.lxor (N.lxor (N.land x y) (N.land x z)) (N.land y z).
Definition Sigma0 (x : N) : N := N.lxor (N.lxor (rotr 2 x) (rotr 13 x)) (rotr 22 x).
Definition Sigma1 (x : N) : N := N.lxor (N.lxor (rotr 6 x) (rotr 11 x)) (rotr 25 x).
Definition sigma0 (x : N) : N := N.lxor (N.lxor (rotr 7 x) (rotr 18 x)) (N.shiftr x 3).
Definition sigma1 (x : N) : N := N.lxor (N.lxor (rotr 17 x) (rotr 19 x)) (N.shiftr x 10).

(** The first sixty-four primes. *)
Definition primes : list N :=
  [2; 3; 5; 7; 11; 13; 17; 19; 23; 29; 31; 37; 41; 43; 47; 53; 59; 61; 67;
   71; 73; 79; 83; 89; 97; 101; 103; 107; 109; 113; 127; 131; 137; 139; 149;
   151; 157; 163; 167; 173; 179; 181; 191; 193; 197; 199; 211; 223; 227;
   229; 233; 239; 241; 251; 257; 263; 269; 271; 277; 281; 283; 293; 307;
   311].

(** The integer cube root, by bisection between [lo] and [hi]. *)
Fixpoint cube_root (fuel : nat) (lo hi n : N) : N :=
  match fuel with
  | O => lo
  | S fuel' =>
      let mid := (lo + hi) / 2 in
      if mid * mid * mid <=? n then cube_root fuel' mid hi n
      else cube_root fuel' lo mid n
  end.

(** The first 32 bits of the fractional part of a prime's cube root, and
    of its square root. *)
Definition frac_cube_root (p : N) : N :=
  w32 (cube_root 40 0 (2 ^ 36) (p * 2 ^ 96)).
Definition frac_square_root (p : N) : N := w32 (N.sqrt (p * 2 ^ 64)).

(** The round constants and the initial hash value. *)
Definition K : list N := Eval vm_compute in map frac_cube_root primes.

Definition H0 : list N := Eval vm_compute in map frac_square_root (take 8 primes).

(** Big-endian bytes of a number, [n] of them. *)
Fixpoint be_bytes (n : nat) (x : N) : bytes :=
  match n with
  | O => []
  | S n' => N.land (N.shiftr x (8 * N.of_nat n')) 255 :: be_bytes n' x
  end.

Definition be_word (bs : bytes) : N :=
  fold_left (fun acc b => N.lor (N.shiftl acc 8) b) bs 0.

(** The message followed by 0x80, zero bytes up to 56 modulo 64, and the
    bit length on eight bytes. *)
Definition pad (msg : bytes) : bytes :=
  let len := N.of_nat (length msg) in
  let zeros := N.to_nat ((119 - len mod 64) mod 64) in
  msg ++ [128] ++ repeat 0 zeros ++ be_bytes 8 (8 * len).

Fixpoint chunks_of (fuel n : nat) (bs : bytes) : list bytes :=
  match fuel, bs with
  | _, [] => []
  | O, _ => []
  | S f, _ => take n bs :: chunks_of f n (drop n bs)
  end.

Definition words_of (block : bytes) : list N :=
  map be_word (chunks_of 16 4 block).

Definition nth_word (l : list N) (i : nat) : N := nth i l 0.

(** The message schedule, most recent word first. *)
Fixpoint schedule (n : nat) (rev_w : list N) : list N :=
  match n with
  | O => rev_w
  | S n' =>
      let w := add32 (add32 (sigma1 (nth_word rev_w 1)) (nth_word rev_w 6))
                     (add32 (sigma0 (nth_word rev_w 14)) (nth_word rev_w 15)) in
      schedule n' (w :: rev_w)
  end.

Definition round (st : list N) (kw : N * N) : list N :=
  match st with
  | [a; b; c; d; e; f; g; h] =>
      let t1 := add32 (add32 (add32 h (Sigma1 e)) (add32 (Ch e f g) (fst kw))) (snd kw) in
      let t2 := add32 (Sigma0 a) (Maj a b c) in
      [add32 t1 t2; a; b; c; add32 d t1; e; f; g]
  | _ => st
  end.

Definition zip_with_add (x y : list N) : list N :=
  map (fun p => add32 (fst p) (snd p)) (combine x y).

Definition compress (h : list N) (block : bytes) : list N :=
  let w := rev (schedule 48 (rev (words_of block))) in
  zip_with_add h (fold_left round (combine K w) h).

Definition sha256 (msg : bytes) : bytes :=
  let p := pad msg in
  flat_map (be_bytes 4)
           (fold_left compress (chunks_of (length p) 64 p) H0).

(** HMAC with a 64-byte block: a longer key is hashed first, a shorter
    one is padded with zeros. *)
Definition hmac_key (key : bytes) : bytes :=
  let k := if (64 <? length key)%nat then sha256 key else key in
  k ++ repeat 0 (64 - length k)%nat.

Definition hmac_sha256 (key data : bytes) : bytes :=
  let k := hmac_key key in
  sha256 (map (N.lxor 92) k ++ sha256 (map (N.lxor 54) k ++ data)).

End Sha256.

(** ** The runtime

    What the sources take from their JavaScript environment and this
    development leaves open: whether [globalThis.crypto.subtle] exists,
    the two operations on Number values that depend on IEEE 754 binary64
    (a JSON number is kept as its literal), and the Unicode case mapping
    of [String.prototype.toLowerCase]. *)

Class Runtime := {
  subtle_available : bool;
  number_truthy : jsstr -> bool;
  number_to_string : jsstr -> jsstr;
  toLowerCase : jsstr -> jsstr
}.

(** ** [URLSearchParams]

    The [application/x-www-form-urlencoded] parser of the WHATWG URL
    Standard, applied by [new URLSearchParams(init)] to a string. *)

Module UrlSearchParams.

Import Utf8.

Definition is_hex (b : N) : bool :=
  ((48 <=? b) && (b <=? 57)) || ((65 <=? b) && (b <=? 70)) ||
  ((97 <=? b) && (b <=? 102)).

Definition hex_val (b : N) : N :=
  if b <=? 57 then b - 48 else if b <=? 70 then b - 55 else b - 87.

Fixpoint percent_decode (bs : bytes) : bytes :=
  match bs with
  | [] => []
  | b :: rest =>
      if b =? 37 then
        match rest with
        | h1 :: h2 :: rest' =>
            if is_hex h1 && is_hex h2
            then (16 * hex_val h1 + hex_val h2) :: percent_decode rest'
            else b :: percent_decode rest
        | _ => b :: percent_decode rest
        end
      else b :: percent_decode rest
  end.

(** The bytes before the first [=] and those after it (none when there is
    no [=]). *)
Fixpoint name_value (bs : bytes) : bytes * bytes :=
  match bs with
  | [] => ([], [])
  | b :: rest =>
      if b =? 61 then ([], rest)
      else let '(n, v) := name_value rest in (b :: n, v)
  end.

Definition plus_to_space (bs : bytes) : bytes :=
  map (fun b => if b =? 43 then 32 else b) bs.

Definition decode_component (bs : bytes) : jsstr :=
  decode_without_BOM (percent_decode (plus_to_space bs)).

Definition parse_sequence (bs : bytes) : list (jsstr * jsstr) :=
  match bs with
  | [] => []
  | _ =>
      let '(n, v) := name_value bs in
      [(decode_component n, decode_component v)]
  end.

Definition parse (input : jsstr) : list (jsstr * jsstr) :=
  flat_map parse_sequence (splitOn 38 (encode input)).

(** [new URLSearchParams(init)]: one leading [?] is dropped.  The value
    is the list of name-value pairs, which [entries()] iterates in
    order. *)
Definition URLSearchParams (init : jsstr) : list (jsstr * jsstr) :=
  match init with
  | 63 :: rest => parse rest
  | _ => parse init
  end.

(** [params.get(name)]: the value of the first pair named [name]. *)
Fixpoint get (name : jsstr) (params : list (jsstr * jsstr)) : option jsstr :=
  match params with
  | [] => None
  | (k, v) :: rest => if eqb k name then Some v else get name rest
  end.

End UrlSearchParams.

(** ** JSON values and [JSON.parse]

    The values [JSON.parse] builds, with a number kept as its literal and
    an object as its members in source order (a repeated name: the last
    one is the property's value).  The parser is a lexer and a pushdown
    automaton that read their input once, after ECMA-404. *)

Module Json.

Inductive json : Type :=
| JNull
| JBool (b : bool)
| JNum (literal : jsstr)
| JStr (s : jsstr)
| JArr (items : list json)
| JObj (members : list (jsstr * json)).

Inductive token : Type :=
| TLBrace | TRBrace | TLBracket | TRBracket | TColon | TComma
| TStr (s : jsstr) | TNum (literal : jsstr) | TTrue | TFalse | TNull.

Definition is_digit (c : N) : bool := (48 <=? c) && (c <=? 57).

Fixpoint skip_digits (s : jsstr) : jsstr :=
  match s with
  | c :: s' => if is_digit c then skip_digits s' else s
  | [] => []
  end.

(** [e] or [E], an optional sign, one digit or more; or nothing. *)
Definition valid_exponent (s : jsstr) : bool :=
  match s with
  | [] => true
  | c :: r =>
      ((c =? 69) || (c =? 101)) &&
      match (match r with
             | d :: x => if (d =? 43) || (d =? 45) then x else r
             | [] => r
             end) with
      | d :: x => is_digit d && bool_decide (skip_digits x = [])
      | [] => false
      end
  end.

Definition valid_fraction (s : jsstr) : bool :=
  match s with
  | 46 :: d :: r => is_digit d && valid_exponent (skip_digits r)
  | 46 :: [] => false
  | _ => valid_exponent s
  end.

(** The JSON number grammar. *)
Definition valid_number (s : jsstr) : bool :=
  match (match s with 45 :: r => r | _ => s end) with
  | [] => false
  | d :: r =>
      if d =? 48 then valid_fraction r
      else is_digit d && valid_fraction (skip_digits r)
  end.

Inductive lstate : Type :=
| LIdle
| LStr (acc : jsstr)
| LEsc (acc : jsstr)
| LUni (acc : jsstr) (seen : nat) (value : N)
| LNum (acc : jsstr)
| LWord (acc : jsstr).

Definition is_number_char (c : N) : bool :=
  is_digit c || (c =? 43) || (c =? 45) || (c =? 46) || (c =? 69) || (c =? 101).

Definition is_letter (c : N) : bool := (97 <=? c) && (c <=? 122).

Definition is_json_space (c : N) : bool :=
  (c =? 9) || (c =? 10) || (c =? 13) || (c =? 32).

Definition lex_idle (c : N) : option (lstate * list token) :=
  if is_json_space c then Some (LIdle, [])
  else if c =? 123 then Some (LIdle, [TLBrace])
  else if c =? 125 then Some (LIdle, [TRBrace])
  else if c =? 91 then Some (LIdle, [TLBracket])
  else if c =? 93 then Some (LIdle, [TRBracket])
  else if c =? 58 then Some (LIdle, [TColon])
  else if c =? 44 then Some (LIdle, [TComma])
  else if c =? 34 then Some (LStr [], [])
  else if is_digit c || (c =? 45) then Some (LNum [c], [])
  else if is_letter c then Some (LWord [c], [])
  else None.

Definition finish_number (acc : jsstr) : option token :=
  if valid_number (rev acc) then Some (TNum (rev acc)) else None.

Definition finish_word (acc : jsstr) : option token :=
  if eqb (rev acc) (lit "true") then Some TTrue
  else if eqb (rev acc) (lit "false") then Some TFalse
  else if eqb (rev acc) (lit "null") then Some TNull
  else None.

Definition escape (c : N) : option N :=
  if (c =? 34) || (c =? 92) || (c =? 47) then Some c
  else if c =? 98 then Some 8
  else if c =? 102 then Some 12
  else if c =? 110 then Some 10
  else if c =? 114 then Some 13
  else if c =? 116 then Some 9
  else None.

Definition lex_step (st : lstate) (c : N) : option (lstate * list token) :=
  match st with
  | LIdle => lex_idle c
  | LStr acc =>
      if c =? 34 then Some (LIdle, [TStr (rev acc)])
      else if c =? 92 then Some (LEsc acc, [])
      else if c <? 32 then None
      else Some (LStr (c :: acc), [])
  | LEsc acc =>
      if c =? 117 then Some (LUni acc 0 0, [])
      else match escape c with
           | Some u => Some (LStr (u :: acc), [])
           | None => None
           end
  | LUni acc seen value =>
      if UrlSearchParams.is_hex c then
        let v := 16 * value + UrlSearchParams.hex_val c in
        if (seen =? 3)%nat then Some (LStr (v :: acc), [])
        else Some (LUni acc (S seen) v, [])
      else None
  | LNum acc =>
      if is_number_char c then Some (LNum (c :: acc), [])
      else match finish_number acc, lex_idle c with
           | Some t, Some (st', ts) => Some (st', t :: ts)
           | _, _ => None
           end
  | LWord acc =>
      if is_letter c then Some (LWord (c :: acc), [])
      else match finish_word acc, lex_idle c with
           | Some t, Some (st', ts) => Some (st', t :: ts)
           | _, _ => None
           end
  end.

Definition lex_end (st : lstate) : option (list token) :=
  match st with
  | LIdle => Some []
  | LNum acc => (fun t => [t]) <$> finish_number acc
  | LWord acc => (fun t => [t]) <$> finish_word acc
  | LStr _ | LEsc _ | LUni _ _ _ => None
  end.

Fixpoint lex (st : lstate) (s : jsstr) : option (list token) :=
  match s with
  | [] => lex_end st
  | c :: s' =>
      match lex_step st c with
      | None => None
      | Some (st', ts) => (fun rest => ts ++ rest) <$> lex st' s'
      end
  end.

(** An open array with its items so far, or an open object with its
    members so far and the name waiting for its value; most recent
    first. *)
Inductive frame : Type :=
| FArr (items : list json)
| FObj (members : list (jsstr * json)) (pending : option jsstr).

Inductive pmode : Type :=
| MVal (may_close : bool)
| MKey (may_close : bool)
| MColon
| MNext
| MEnd (v : json).

Definition pstate : Type := pmode * list frame.

Definition push_value (v : json) (stack : list frame) : option pstate :=
  match stack with
  | [] => Some (MEnd v, [])
  | FArr items :: st => Some (MNext, FArr (v :: items) :: st)
  | FObj members (Some k) :: st => Some (MNext, FObj ((k, v) :: members) None :: st)
  | FObj _ None :: _ => None
  end.

Definition close_array (stack : list frame) : option pstate :=
  match stack with
  | FArr items :: st => push_value (JArr (rev items)) st
  | _ => None
  end.

Definition close_object (stack : list frame) : option pstate :=
  match stack with
  | FObj members None :: st => push_value (JObj (rev members)) st
  | _ => None
  end.

Definition parse_step (ps : pstate) (t : token) : option pstate :=
  let '(mode, stack) := ps in
  match mode, t with
  | MVal _, TNull => push_value JNull stack
  | MVal _, TTrue => push_value (JBool true) stack
  | MVal _, TFalse => push_value (JBool false) stack
  | MVal _, TNum n => push_value (JNum n) stack
  | MVal _, TStr s => push_value (JStr s) stack
  | MVal _, TLBracket => Some (MVal true, FArr [] :: stack)
  | MVal _, TLBrace => Some (MKey true, FObj [] None :: stack)
  | MVal true, TRBracket => close_array stack
  | MKey _, TStr k =>
      match stack with
      | FObj members None :: st => Some (MColon, FObj members (Some k) :: st)
      | _ => None
      end
  | MKey true, TRBrace => close_object stack
  | MColon, TColon => Some (MVal false, stack)
  | MNext, TComma =>
      match stack with
      | FArr _ :: _ => Some (MVal false, stack)
      | FObj _ None :: _ => Some (MKey false, stack)
      | _ => None
      end
  | MNext, TRBracket => close_array stack
  | MNext, TRBrace => close_object stack
  | _, _ => None
  end.

Fixpoint parse_tokens (ps : pstate) (ts : list token) : option json :=
  match ts with
  | [] => match ps with (MEnd v, []) => Some v | _ => None end
  | t :: ts' =>
      match parse_step ps t with
      | Some ps' => parse_tokens ps' ts'
      | None => None
      end
  end.

(** [JSON.parse(text)]; [None] is a [SyntaxError]. *)
Definition parse (text : jsstr) : option json :=
  match lex LIdle text with
  | Some ts => parse_tokens (MVal false, []) ts
  | None => None
  end.

(** The property's value among an object's members: the last member of
    that name. *)
Fixpoint member (name : jsstr) (members : list (jsstr * json)) : option json :=
  match members with
  | [] => None
  | (k, v) :: rest =>
      match member name rest with
      | Some v' => Some v'
      | None => if eqb k name then Some v else None
      end
  end.

(** A JavaScript value that may be [undefined]. *)
Abbreviation jsval := (option json).
Abbreviation undefined := (@None json).

(** A completion: [None] is a thrown exception. *)
Abbreviation completion A := (option A).

(** [v.name] for a name that is neither an index, nor [length], nor a
    property of a built-in prototype ([id], [delta], [error], [level],
    [errors], [initData]).  On [null] it throws a [TypeError]; on a
    primitive or an array it is [undefined]. *)
Definition get_prop (v : json) (name : jsstr) : completion jsval :=
  match v with
  | JNull => None
  | JObj members => Some (member name members)
  | _ => Some undefined
  end.

Section WithRuntime.
Context {R : Runtime}.

(** ToBoolean *)
Definition truthy (v : jsval) : bool :=
  match v with
  | None | Some JNull => false
  | Some (JBool b) => b
  | Some (JNum n) => number_truthy n
  | Some (JStr s) => negb (bool_decide (s = []))
  | Some (JArr _) | Some (JObj _) => true
  end.

(** ToString of a parsed value, as [String(v)], a template literal and
    string concatenation apply it.  An array is joined with commas,
    [null] items as empty; an object is [[object Object]], unless it
    has a member named [toString]: that member is no function, and the
    conversion throws a [TypeError]. *)
Fixpoint to_string (v : json) : completion jsstr :=
  match v with
  | JNull => Some (lit "null")
  | JBool true => Some (lit "true")
  | JBool false => Some (lit "false")
  | JNum n => Some (number_to_string n)
  | JStr s => Some s
  | JArr items =>
      (fix items_to_strings (l : list json) : completion (list jsstr) :=
         match l with
         | [] => Some []
         | x :: l' =>
             match (match x with JNull => Some [] | _ => to_string x end),
                   items_to_strings l' with
             | Some s, Some ss => Some (s :: ss)
             | _, _ => None
             end
         end) items
      ≫= fun ss => Some (join (lit ",") ss)
  | JObj members =>
      match member (lit "toString") members with
      | Some _ => None
      | None => Some (lit "[object Object]")
      end
  end.

Definition ToString (v : jsval) : completion jsstr :=
  match v with
  | None => Some (lit "undefined")
  | Some j => to_string j
  end.

End WithRuntime.

End Json.

(** ** [src/lib/verifyTelegram.js]: the verifier *)

Inductive Promise (A : Type) : Type :=
| Fulfilled (a : A)
| Rejected (reason : jsstr).
Arguments Fulfilled {A} a.
Arguments Rejected {A} reason.

#[global] Instance jsstr_le_dec (a b : jsstr) : Decision (JsString.le a b).
Proof. unfold JsString.le. apply _. Defined.

Module VerifyTelegram.

Import Utf8 Sha256 UrlSearchParams.

Definition hex_digit (d : N) : N := if d <? 10 then 48 + d else 87 + d.

(** [toHex(buffer)]: two lowercase hexadecimal digits per byte. *)
Definition toHex (buffer : bytes) : jsstr :=
  flat_map (fun b => [hex_digit (b / 16); hex_digit (b mod 16)]) buffer.

(** [data[k] = v] on an object created by [{}]: an own property is
    written, except for the name [__proto__], which is the accessor of
    [Object.prototype] and ignores a string. *)
Definition data_set (data : gmap jsstr jsstr) (kv : jsstr * jsstr) : gmap jsstr jsstr :=
  if eqb (fst kv) (lit "__proto__") then data else <[fst kv := snd kv]> data.

(** [for (const [k, v] of params.entries()) data[k] = v] *)
Definition build_data (params : list (jsstr * jsstr)) : gmap jsstr jsstr :=
  fold_left data_set params ∅.

(** [Object.keys(data).sort()] *)
Definition sorted_keys (data : gmap jsstr jsstr) : list jsstr :=
  merge_sort JsString.le (map fst (map_to_list data)).

(** The template literal [`${key}=${data[key]}`]. *)
Definition line (data : gmap jsstr jsstr) (key : jsstr) : jsstr :=
  key ++ lit "=" ++ match data !! key with
                    | Some v => v
                    | None => lit "undefined"
                    end.

Definition checkArr (data : gmap jsstr jsstr) : list jsstr :=
  flat_map (fun key => if eqb key (lit "hash") then [] else [line data key])
           (sorted_keys data).

Definition checkString (data : gmap jsstr jsstr) : jsstr :=
  join LF (checkArr data).

Section WithRuntime.
Context {R : Runtime}.

(** [hmacSHA256(keyBytes, dataBytes)]: throws when Web Crypto is
    missing; [importKey] rejects a key of no bytes with a [DataError]. *)
Definition hmacSHA256 (keyBytes dataBytes : bytes) : jsstr + bytes :=
  if subtle_available then
    match keyBytes with
    | [] => inl (lit "DataError")
    | _ => inr (hmac_sha256 keyBytes dataBytes)
    end
  else inl (lit "Web Crypto unavailable").

(** The [async] function: its value is always a promise. *)
Definition verifyTelegramInitData (initDataRaw botToken : jsstr) : Promise bool :=
  match initDataRaw, botToken with
  | [], _ | _, [] => Fulfilled false
  | _, _ =>
      let data := build_data (URLSearchParams initDataRaw) in
      match data !! lit "hash" with
      | None | Some [] => Fulfilled false
      | Some receivedHash =>
          match hmacSHA256 (encode (lit "WebAppData")) (encode botToken) with
          | inl e => Rejected e
          | inr step1 =>
              match hmacSHA256 step1 (encode (checkString data)) with
              | inl e => Rejected e
              | inr step2 => Fulfilled (eqb (toHex step2) receivedHash)
              end
          end
      end
  end.

(** [extractUserId(initDataRaw)]; [None] is [null].  Every exception
    is caught. *)
Definition extractUserId (initDataRaw : jsstr) : option jsstr :=
  match get (lit "user") (URLSearchParams initDataRaw) with
  | None | Some [] => None
  | Some userJson =>
      match Json.parse userJson with
      | None => None
      | Some user =>
          match Json.get_prop user (lit "id") with
          | None => None
          | Some id => Json.ToString id
          end
      end
  end.

End WithRuntime.

End VerifyTelegram.

(** ** [src/pages/api/tip.js]: the tip endpoint *)

Module TipApi.

Import Json VerifyTelegram.

(** The three fields the handler takes from [req.body || {}].  [initData]
    is a string or missing, as the page's [requestTip] sends it. *)
Record Body := MkBody {
  level : jsval;
  errors : jsval;
  initData : option jsstr
}.

Record Request := MkRequest { method : jsstr; body : Body }.

(** [res.status(code).json({ ok, error, advice, userId })] *)
Record Response := MkResponse {
  status : N;
  ok : bool;
  error : option jsstr;
  advice : option jsstr;
  userId : option jsstr
}.

Definition failure (code : N) (msg : string) : Response :=
  MkResponse code false (Some (lit msg)) None None.

(** The two kinds of value [ok] could hold: the boolean the verification
    settles to, had the call been awaited, or the promise itself.
    ToBoolean of a promise, an object, is [true]. *)
Inductive value : Type :=
| Boolean (b : bool)
| PromiseObject (p : Promise bool).

Definition ToBoolean (v : value) : bool :=
  match v with
  | Boolean b => b
  | PromiseObject _ => true
  end.

Definition allowed : list jsstr :=
  [lit "beginner"; lit "intermediate"; lit "advanced"].

Section Handler.
Context {R : Runtime}.
(** [process.env.TELEGRAM_BOT_TOKEN] *)
Variable TELEGRAM_BOT_TOKEN : option jsstr.
(** [generateTip] of [../../lib/llm] ([src/unnamed/part_001]), awaited:
    the advice of the language model, or an exception. *)
Variable generateTip : jsstr -> list jsstr -> completion jsstr.

(** [String(level || "beginner").toLowerCase()], kept when allowed. *)
Definition finalLevel (level : jsval) : completion jsstr :=
  ToString (if truthy level then level else Some (JStr (lit "beginner")))
  ≫= fun s =>
    let normLevel := toLowerCase s in
    Some (if bool_decide (normLevel ∈ allowed) then normLevel else lit "beginner").

(** [errors.slice(0, 20).map(s => String(s).slice(0, 200))] *)
Fixpoint map_String (items : list json) : completion (list jsstr) :=
  match items with
  | [] => Some []
  | s :: rest =>
      match to_string s with
      | None => None
      | Some str =>
          match map_String rest with
          | None => None
          | Some strs => Some (slice 0 200 str :: strs)
          end
      end
  end.

Definition errs (errors : jsval) : completion (list jsstr) :=
  match errors with
  | Some (JArr items) => map_String (take 20 items)
  | _ => Some []
  end.

(** The handler: its response, and the calls of [generateTip] it made.
    [verifyTelegramInitData] is called without [await]. *)
Definition handler (req : Request) : Response * list (jsstr * list jsstr) :=
  if negb (eqb (method req) (lit "POST")) then
    (failure 405 "Method Not Allowed", [])
  else
    match initData (body req) with
    | None | Some [] => (failure 400 "initData required", [])
    | Some initData =>
        let ok := PromiseObject (verifyTelegramInitData initData
                                   (default [] TELEGRAM_BOT_TOKEN)) in
        if negb (ToBoolean ok) then (failure 401 "invalid initData", [])
        else
          let userId := match extractUserId initData with
                        | Some (c :: u) => c :: u
                        | _ => lit "unknown"
                        end in
          match finalLevel (level (body req)) with
          | None => (failure 500 "server_error", [])
          | Some lvl =>
              match errs (errors (body req)) with
              | None => (failure 500 "server_error", [])
              | Some es =>
                  match generateTip lvl es with
                  | None => (failure 500 "server_error", [(lvl, es)])
                  | Some advice =>
                      (MkResponse 200 true None (Some advice) (Some userId),
                       [(lvl, es)])
                  end
              end
          end
    end.

End Handler.

End TipApi.

(** ** The transcript and the response of [fetch] *)

Inductive Role : Type := system | user | assistant.

#[global] Instance Role_eq_dec : EqDecision Role.
Proof. solve_decision. Defined.

Record ChatMsg := MkMsg { role : Role; content : jsstr }.

#[global] Instance ChatMsg_eq_dec : EqDecision ChatMsg.
Proof. solve_decision. Defined.

(** The body of a response as [reader.read()] delivers it: the chunks in
    order, then either [done] or a rejected read. *)
Record Stream := MkStream { chunks : list Utf8.bytes; read_fails : bool }.

(** [res.ok] and [res.body] ([None] is [null]). *)
Record FetchResponse := MkFetch { res_ok : bool; res_body : option Stream }.

(** ** [src/frontend/pages/index.tsx]: [parseSSELines] and [ssePost]

    The same two functions stand in [src/unnamed/part_002]. *)

Module Sse.

Import Utf8 Json.

(** The delimiter of frames, two line feeds. *)
Definition LFLF : jsstr := [10; 10].

(** The loop of [parseSSELines], one iteration per unit of fuel. *)
Fixpoint parseSSELines_loop (fuel : nat) (chunk : jsstr) (start : nat)
         (lines : list jsstr) : list jsstr :=
  match fuel with
  | O => lines
  | S fuel' =>
      match indexOf LFLF start chunk with
      | None => lines
      | Some idx =>
          parseSSELines_loop fuel' chunk (idx + 2)
                             (lines ++ [slice start idx chunk])
      end
  end.

Definition parseSSELines (chunk : jsstr) : list jsstr :=
  parseSSELines_loop (S (length chunk)) chunk 0 [].

(** [buffer = buffer.slice(lastDoubleNL + 2)] when [lastDoubleNL >= 0]. *)
Definition retain (buffer : jsstr) : jsstr :=
  match lastIndexOf LFLF buffer with
  | Some lastDoubleNL => slice_from (lastDoubleNL + 2) buffer
  | None => buffer
  end.

(** [if (line.startsWith('data: ')) { const payload = line.slice(6); ... }]
    on one element of [lines], which is a whole frame. *)
Definition payload_of (line : jsstr) : option jsstr :=
  if startsWith (lit "data: ") line then Some (slice_from 6 line) else None.

Section WithRuntime.
Context {R : Runtime}.

(** [for (const line of lines)]: the values yielded, and whether the
    generator returned on [[DONE]]. *)
Fixpoint for_lines (lines : list jsstr) : list json * bool :=
  match lines with
  | [] => ([], false)
  | line :: rest =>
      match payload_of line with
      | None => for_lines rest
      | Some payload =>
          if eqb payload (lit "[DONE]") then ([], true)
          else
            match parse payload with
            | None => for_lines rest
            | Some obj =>
                match get_prop obj (lit "delta") with
                | None => for_lines rest
                | Some None => for_lines rest
                | Some (Some delta) =>
                    if truthy (Some delta) then
                      let '(ys, returned) := for_lines rest in
                      (delta :: ys, returned)
                    else for_lines rest
                end
            end
      end
  end.

(** The [while (true)] loop of [ssePost] over the chunks still to be
    read. *)
Fixpoint read_loop (decoder : TextDecoder) (buffer : jsstr)
         (rest : list bytes) : list json * bool :=
  match rest with
  | [] => ([], false)
  | value :: rest' =>
      let '(decoder', text) := decode_stream decoder value in
      let buffer1 := buffer ++ text in
      let lines := parseSSELines buffer1 in
      let buffer2 := retain buffer1 in
      let '(ys, returned) := for_lines lines in
      if returned then (ys, true)
      else
        let '(ys', returned') := read_loop decoder' buffer2 rest' in
        (ys ++ ys', returned')
  end.

(** [ssePost(url, body)] for the response [fetch] gave: the values it
    yields, and whether it ends by throwing. *)
Definition ssePost (res : FetchResponse) : list json * bool :=
  match res_ok res, res_body res with
  | true, Some stream =>
      let '(ys, returned) := read_loop newTextDecoder [] (chunks stream) in
      (ys, negb returned && read_fails stream)
  | _, _ => ([], true)
  end.

End WithRuntime.

(** The frames the decoder hands to [for (const line of lines)], chunk
    after chunk: the loop of [ssePost] without the handling of the
    payloads. *)
Fixpoint decoded_frames (decoder : TextDecoder) (buffer : jsstr)
         (rest : list bytes) : list jsstr :=
  match rest with
  | [] => []
  | value :: rest' =>
      let '(decoder', text) := decode_stream decoder value in
      let buffer1 := buffer ++ text in
      parseSSELines buffer1 ++ decoded_frames decoder' (retain buffer1) rest'
  end.

End Sse.

(** ** [src/frontend/pages/index.tsx]: [handleSend] *)

Module ChatPage.

Import Json Sse.

Definition network_error : jsstr :=
  [10; 10; 91; 1054; 1096; 1080; 1073; 1082; 1072; 32; 1089; 1077; 1090;
   1080; 32; 1087; 1088; 1080; 32; 1087; 1086; 1083; 1091; 1095; 1077;
   1085; 1080; 1080; 32; 1086; 1090; 1074; 1077; 1090; 1072; 46; 32; 1055;
   1088; 1086; 1074; 1077; 1088; 1100; 32; 1087; 1086; 1076; 1082; 1083;
   1102; 1095; 1077; 1085; 1080; 1077; 32; 1082; 32; 65; 80; 73; 32; 40;
   72; 84; 84; 80; 83; 41; 32; 1080; 32; 67; 79; 82; 83; 32; 1085; 1072;
   32; 98; 97; 99; 107; 101; 110; 100; 46; 93].

(** The body shared by both state updaters: the last message, when it is
    the assistant's, is replaced by a copy with [suffix] appended. *)
Definition append_to_last (suffix : jsstr) (prev : list ChatMsg) : list ChatMsg :=
  match last prev with
  | None => prev
  | Some m =>
      if bool_decide (role m = assistant)
      then <[(length prev - 1)%nat := MkMsg (role m) (content m ++ suffix)]> prev
      else prev
  end.

Section WithRuntime.
Context {R : Runtime}.

(** The updater passed to [setMessages] for one yielded value;
    [(last.content || '') + delta] converts [delta] to a string and may
    throw. *)
Definition on_delta (delta : json) (prev : list ChatMsg) : completion (list ChatMsg) :=
  match last prev with
  | None => Some prev
  | Some m =>
      if bool_decide (role m = assistant)
      then to_string delta ≫= fun s => Some (append_to_last s prev)
      else Some prev
  end.

Fixpoint on_deltas (deltas : list json) (prev : list ChatMsg) : completion (list ChatMsg) :=
  match deltas with
  | [] => Some prev
  | d :: rest => on_delta d prev ≫= on_deltas rest
  end.

(** One turn of [handleSend]: the transcript after it, for the text in
    the input box and the response of the backend. *)
Definition handleSend (input : jsstr) (messages : list ChatMsg)
           (res : FetchResponse) : completion (list ChatMsg) :=
  match trim input with
  | [] => Some messages
  | text =>
      let started := messages ++ [MkMsg user text; MkMsg assistant []] in
      let '(deltas, threw) := ssePost res in
      on_deltas deltas started ≫= fun streamed =>
        Some (if threw then append_to_last network_error streamed else streamed)
  end.

End WithRuntime.

End ChatPage.

(** ** [src/unnamed/part_002]: [handleSend] by index

    This copy of the page addresses the assistant's message by [assistantIndex], the length
    of the history sent to the backend, and writes to the array at that
    index.  An array is modelled with its holes: [None] is an index that
    holds [undefined]. *)

Module ChatPageByIndex.

Import Json Sse.

Definition array_get (i : nat) (a : list (option ChatMsg)) : option ChatMsg :=
  mjoin (a !! i).

(** [a[i] = x]: an index past the end extends the array. *)
Definition array_set (i : nat) (x : ChatMsg) (a : list (option ChatMsg))
  : list (option ChatMsg) :=
  if (i <? length a)%nat then <[i := Some x]> a
  else a ++ replicate (i - length a) None ++ [Some x].

(** [copy[assistantIndex] || { role: 'assistant', content: '' }], then
    [last.content = (last.content || '') + suffix] and
    [copy[assistantIndex] = last].  The message found is changed in
    place; the array returned holds the same object. *)
Definition append_at (assistantIndex : nat) (suffix : jsstr)
           (prev : list (option ChatMsg)) : list (option ChatMsg) :=
  let last := default (MkMsg assistant []) (array_get assistantIndex prev) in
  array_set assistantIndex (MkMsg (role last) (content last ++ suffix)) prev.

(** [[...messages, topicContext, userMsg].slice(-20).length] *)
Definition history_length (messages : list (option ChatMsg)) : nat :=
  (length messages + 2) `min` 20.

Section WithRuntime.
Context {R : Runtime}.

Definition on_delta (assistantIndex : nat) (delta : json)
           (prev : list (option ChatMsg)) : completion (list (option ChatMsg)) :=
  to_string delta ≫= fun s => Some (append_at assistantIndex s prev).

Fixpoint on_deltas (assistantIndex : nat) (deltas : list json)
         (prev : list (option ChatMsg)) : completion (list (option ChatMsg)) :=
  match deltas with
  | [] => Some prev
  | d :: rest => on_delta assistantIndex d prev ≫= on_deltas assistantIndex rest
  end.

Definition handleSend (input : jsstr) (messages : list (option ChatMsg))
           (res : FetchResponse) : completion (list (option ChatMsg)) :=
  match trim input with
  | [] => Some messages
  | text =>
      let assistantIndex := history_length messages in
      let started := (messages ++ [Some (MkMsg user text)])
                     ++ [Some (MkMsg assistant [])] in
      let '(deltas, threw) := ssePost res in
      on_deltas assistantIndex deltas started ≫= fun streamed =>
        Some (if threw
              then append_at assistantIndex ChatPage.network_error streamed
              else streamed)
  end.

End WithRuntime.

End ChatPageByIndex.

(** ** [src/unnamed/part_001]: [send], the plain streaming chat page *)

Module StreamPage.

Import Utf8 Json.

Definition server_error : jsstr :=
  [1054; 1096; 1080; 1073; 1082; 1072; 32; 1089; 1077; 1088; 1074; 1077;
   1088; 1072].

(** The component's [messages] and [streaming] states, and the local
    variable [assistant] of the call in progress. *)
Record State := MkState {
  messages : list ChatMsg;
  streaming : bool;
  assistant_text : jsstr
}.

(** The updater of [setMessages]: the last message, when it is the
    assistant's, is replaced by one holding [assistant]. *)
Definition write_last (assistant_now : jsstr) (curr : list ChatMsg) : list ChatMsg :=
  match last curr with
  | Some m =>
      if bool_decide (role m = assistant)
      then <[(length curr - 1)%nat := MkMsg assistant assistant_now]> curr
      else curr
  | None => curr
  end.

(** [if (!line.startsWith('data:')) continue;] and
    [const payload = line.slice(5).trim();] *)
Definition payload_of (line : jsstr) : option jsstr :=
  if startsWith (lit "data:") line then Some (trim (slice_from 5 line)) else None.

Section WithRuntime.
Context {R : Runtime}.

(** The body of [try]: the new value of [assistant], or an exception
    (caught, and [setMessages] is not reached). *)
Definition accumulate (payload : jsstr) (assistant_now : jsstr) : completion jsstr :=
  parse payload ≫= fun json =>
  get_prop json (lit "error") ≫= fun err =>
  if truthy err then
    ToString err ≫= fun s => Some (assistant_now ++ LF ++ lit "[error] " ++ s)
  else
    get_prop json (lit "delta") ≫= fun delta =>
    if truthy delta then ToString delta ≫= fun s => Some (assistant_now ++ s)
    else Some assistant_now.

(** One line of a chunk: the state after it, and whether [send] goes
    on ([false] after the [return] on [[DONE]]). *)
Definition on_line (line : jsstr) (st : State) : State * bool :=
  match payload_of line with
  | None => (st, true)
  | Some payload =>
      if eqb payload (lit "[DONE]") then
        (MkState (messages st) false (assistant_text st), false)
      else
        match accumulate payload (assistant_text st) with
        | None => (st, true)
        | Some a => (MkState (write_last a (messages st)) (streaming st) a, true)
        end
  end.

Fixpoint for_lines (lines : list jsstr) (st : State) : State * bool :=
  match lines with
  | [] => (st, true)
  | line :: rest =>
      let '(st', go_on) := on_line line st in
      if go_on then for_lines rest st' else (st', false)
  end.

(** The [while (true)] loop over the chunks still to be read. *)
Fixpoint read_loop (decoder : TextDecoder) (rest : list bytes) (st : State)
  : State * bool :=
  match rest with
  | [] => (st, true)
  | value :: rest' =>
      let '(decoder', chunk) := decode_stream decoder value in
      let '(st', go_on) := for_lines (splitOn 10 chunk) st in
      if go_on then read_loop decoder' rest' st' else (st', false)
  end.

(** One call of [send]: the component's states after it. *)
Definition send (input : jsstr) (msgs : list ChatMsg) (is_streaming : bool)
           (res : FetchResponse) : list ChatMsg * bool :=
  match trim input, is_streaming with
  | [], _ | _, true => (msgs, is_streaming)
  | _, false =>
      let next := msgs ++ [MkMsg user input] in
      match res_ok res, res_body res with
      | true, Some stream =>
          let st0 := MkState (next ++ [MkMsg assistant []]) true [] in
          let '(st, go_on) := read_loop newTextDecoder (chunks stream) st0 in
          if go_on && negb (read_fails stream)
          then (messages st, false)
          else (messages st, streaming st)
      | _, _ => (next ++ [MkMsg assistant server_error], false)
      end
  end.

End WithRuntime.

End StreamPage.

(** ** A runtime to run the examples on

    Web Crypto is present; a number literal is falsy when its mantissa has
    no digit other than zero and prints as itself, which is what
    JavaScript does for canonical integer literals such as [42]; letters
    [A] to [Z] are the only ones lowered.  None of the examples below
    holds a number or a letter outside ASCII. *)

Module Reference.

Definition mantissa_nonzero (literal : jsstr) : bool :=
  existsb (fun c => (49 <=? c) && (c <=? 57))
          (hd [] (splitOn 101 (map (fun c => if c =? 69 then 101 else c) literal))).

Definition ascii_lower (s : jsstr) : jsstr :=
  map (fun c => if (65 <=? c) && (c <=? 90) then c + 32 else c) s.

Definition runtime : Runtime :=
  {| subtle_available := true;
     number_truthy := mantissa_nonzero;
     number_to_string := fun literal => literal;
     toLowerCase := ascii_lower |}.

End Reference.

(** ** What the specification asks of the sources *)

Module Spec.

Import UrlSearchParams.

(** The signed fields: the mapping from field name to value that the
    pairs of [raw] define, the last occurrence of a name winning. *)
Definition fields (raw : jsstr) : gmap jsstr jsstr :=
  list_to_map (reverse (URLSearchParams raw)).

(** The canonical check-string: every field except [hash] as a
    [key=value] line, the names in lexicographic order, the lines joined
    by one line feed each. *)
Definition canonical (raw : jsstr) : jsstr :=
  join LF
    (map (fun k => k ++ lit "=" ++ default [] (fields raw !! k))
         (merge_sort JsString.le
            (filter (fun k => k <> lit "hash") (map fst (map_to_list (fields raw)))))).

(** The tag the [hash] field must equal. *)
Definition expected_tag (raw secret : jsstr) : jsstr :=
  VerifyTelegram.toHex
    (Sha256.hmac_sha256
       (Sha256.hmac_sha256 (Utf8.encode (lit "WebAppData")) (Utf8.encode secret))
       (Utf8.encode (canonical raw))).

(** The marker stripped from a line, with one following space when there
    is one. *)
Definition strip_marker (line : jsstr) : jsstr :=
  match drop 5 line with
  | 32 :: rest => rest
  | rest => rest
  end.


End Spec.

(** * Properties *)

(** ** Strings *)

Section StringFacts.

Lemma eqb_eq (a b : jsstr) : eqb a b = true <-> a = b.
Proof. unfold eqb. apply bool_decide_eq_true. Qed.

Lemma eqb_neq (a b : jsstr) : eqb a b = false <-> a <> b.
Proof. unfold eqb. apply bool_decide_eq_false. Qed.

Lemma eqb_refl (a : jsstr) : eqb a a = true.
Proof. by apply eqb_eq. Qed.


Lemma startsWith_inv (p s : jsstr) :
  startsWith p s = true -> s = p ++ drop (length p) s.
Proof.
  revert s. induction p as [|c p IH]; intros [|d s]; simpl; try done.
  intros [Hc Hp]%andb_prop. apply N.eqb_eq in Hc as ->. f_equal. by apply IH.
Qed.

Lemma startsWith_length (p s : jsstr) :
  startsWith p s = true -> (length p <= length s)%nat.
Proof.
  intros H%startsWith_inv. rewrite H, length_app. lia.
Qed.

Lemma leb_refl (a : jsstr) : leb a a = true.
Proof.
  induction a as [|c a IH]; simpl; [done|].
  rewrite N.eqb_refl, IH. by rewrite orb_true_r.
Qed.

Lemma leb_total (a b : jsstr) : leb a b = true \/ leb b a = true.
Proof.
  revert b. induction a as [|c a IH]; intros [|d b]; simpl; auto.
  destruct (N.lt_trichotomy c d) as [Hlt|[->|Hgt]].
  - left. apply N.ltb_lt in Hlt. by rewrite Hlt.
  - rewrite N.eqb_refl, N.ltb_irrefl. simpl. apply IH.
  - right. apply N.ltb_lt in Hgt. by rewrite Hgt.
Qed.

Lemma leb_antisym (a b : jsstr) : leb a b = true -> leb b a = true -> a = b.
Proof.
  revert b. induction a as [|c a IH]; intros [|d b]; simpl; try done.
  intros [H1|[H1 H1']%andb_prop]%orb_prop [H2|[H2 H2']%andb_prop]%orb_prop.
  - apply N.ltb_lt in H1, H2. lia.
  - apply N.ltb_lt in H1. apply N.eqb_eq in H2. lia.
  - apply N.ltb_lt in H2. apply N.eqb_eq in H1. lia.
  - apply N.eqb_eq in H1 as ->. f_equal. by apply IH.
Qed.

Lemma leb_trans (a b c : jsstr) : leb a b = true -> leb b c = true -> leb a c = true.
Proof.
  revert b c. induction a as [|x a IH]; intros [|y b] [|z c]; simpl; try done.
  intros [H1|[H1 H1']%andb_prop]%orb_prop [H2|[H2 H2']%andb_prop]%orb_prop.
  - apply N.ltb_lt in H1, H2.
    assert ((x <? z) = true) as -> by (apply N.ltb_lt; lia). done.
  - apply N.ltb_lt in H1. apply N.eqb_eq in H2 as <-.
    apply N.ltb_lt in H1 as ->. done.
  - apply N.ltb_lt in H2. apply N.eqb_eq in H1 as ->.
    apply N.ltb_lt in H2 as ->. done.
  - apply N.eqb_eq in H1 as ->. apply N.eqb_eq in H2 as ->.
    rewrite N.eqb_refl. rewrite (IH b c); [|done|done]. by rewrite orb_true_r.
Qed.

#[global] Instance le_total : Total JsString.le.
Proof. intros a b. apply leb_total. Qed.

#[global] Instance le_trans : Transitive JsString.le.
Proof. intros a b c. apply leb_trans. Qed.

#[global] Instance le_antisym : AntiSymm (=) JsString.le.
Proof. intros a b. apply leb_antisym. Qed.

End StringFacts.

(** ** The verifier *)

Section ShaFacts.

Import Sha256.

Lemma round_length (st : list N) (kw : N * N) : length (round st kw) = length st.
Proof.
  unfold round.
  do 9 (destruct st as [|? st]; [reflexivity|]). reflexivity.
Qed.

Lemma rounds_length (kws : list (N * N)) (st : list N) :
  length (fold_left round kws st) = length st.
Proof.
  revert st. induction kws as [|kw kws IH]; intros st; simpl; [done|].
  by rewrite IH, round_length.
Qed.

Lemma compress_length (h : list N) (block : Utf8.bytes) :
  length (compress h block) = length h.
Proof.
  unfold compress, zip_with_add.
  rewrite length_map, length_combine, rounds_length. lia.
Qed.

Lemma compress_all_length (blocks : list Utf8.bytes) (h : list N) :
  length (fold_left compress blocks h) = length h.
Proof.
  revert h. induction blocks as [|b blocks IH]; intros h; simpl; [done|].
  by rewrite IH, compress_length.
Qed.

Lemma be_bytes_length (n : nat) (x : N) : length (be_bytes n x) = n.
Proof. induction n as [|n IH]; simpl; [done|]. by rewrite IH. Qed.

(** The digest has 32 bytes. *)
Lemma sha256_length (msg : Utf8.bytes) : length (sha256 msg) = 32%nat.
Proof.
  unfold sha256.
  assert (forall l : list N, length (flat_map (be_bytes 4) l) = (4 * length l)%nat) as Hl.
  { induction l as [|x l IH]; [done|].
    change (flat_map (be_bytes 4) (x :: l)) with (be_bytes 4 x ++ flat_map (be_bytes 4) l).
    rewrite length_app, be_bytes_length, IH. simpl. lia. }
  rewrite Hl, compress_all_length. reflexivity.
Qed.

Lemma hmac_sha256_length (key data : Utf8.bytes) :
  length (hmac_sha256 key data) = 32%nat.
Proof. apply sha256_length. Qed.

(** The digest of [abc] (FIPS 180-4) and the second test case of
    RFC 4231. *)
Lemma sha256_abc :
  VerifyTelegram.toHex (sha256 (lit "abc"))
  = lit "ba7816bf8f01cfea414140de5dae2223b00361a396177a9cb410ff61f20015ad".
Proof. vm_compute; reflexivity. Qed.

Lemma hmac_sha256_rfc4231 :
  VerifyTelegram.toHex (hmac_sha256 (lit "Jefe") (lit "what do ya want for nothing?"))
  = lit "5bdcc146bf60754e6a042426089575c75a003f089d2739839dec58b964ec3843".
Proof. vm_compute; reflexivity. Qed.

End ShaFacts.

Section VerifyFacts.

Import Utf8 Sha256 UrlSearchParams VerifyTelegram.
Context {R : Runtime}.

Lemma toHex_length (buffer : bytes) : length (toHex buffer) = (2 * length buffer)%nat.
Proof.
  induction buffer as [|b buffer IH]; simpl; [done|]. rewrite IH. lia.
Qed.

(** An empty [raw] or an empty [secret]: rejected, nothing thrown. *)
Lemma verify_empty (raw secret : jsstr) :
  raw = [] \/ secret = [] ->
  verifyTelegramInitData raw secret = Fulfilled false.
Proof. intros [-> | ->]; [done|]. by destruct raw. Qed.

(** No [hash] among the properties of [data]: rejected, nothing thrown. *)
Lemma verify_no_hash (raw secret : jsstr) :
  build_data (URLSearchParams raw) !! lit "hash" = None ->
  verifyTelegramInitData raw secret = Fulfilled false.
Proof.
  intros H. unfold verifyTelegramInitData. rewrite H.
  destruct raw, secret; reflexivity.
Qed.

(** Otherwise, with Web Crypto at hand, the result is the comparison of
    the [hash] property with the tag of the check-string. *)
Lemma verify_hash (raw secret receivedHash : jsstr) :
  subtle_available = true ->
  raw <> [] -> secret <> [] ->
  build_data (URLSearchParams raw) !! lit "hash" = Some receivedHash ->
  verifyTelegramInitData raw secret
  = Fulfilled
      (eqb (toHex (hmac_sha256
                     (hmac_sha256 (encode (lit "WebAppData")) (encode secret))
                     (encode (checkString (build_data (URLSearchParams raw))))))
           receivedHash).
Proof.
  intros Hs Hr Ht Hh. unfold verifyTelegramInitData, hmacSHA256.
  rewrite Hh, Hs.
  destruct raw as [|c raw]; [done|]. destruct secret as [|d secret]; [done|].
  set (step1 := hmac_sha256 (encode (lit "WebAppData")) (encode (d :: secret))).
  change (match encode (lit "WebAppData") with
          | [] => inl (lit "DataError")
          | _ :: _ => inr step1
          end) with (@inr jsstr bytes step1).
  assert (length step1 = 32%nat) as Hl by apply hmac_sha256_length.
  destruct step1 as [|b step1]; [done|].
  destruct receivedHash as [|h hs]; [|done].
  f_equal. symmetry. apply eqb_neq. intros Hx.
  apply (f_equal length) in Hx.
  rewrite toHex_length, hmac_sha256_length in Hx. done.
Qed.

(** The properties of [data]: the pairs of the parameters, the last of a
    name winning, without those named [__proto__]. *)
Lemma build_data_list_to_map (params : list (jsstr * jsstr)) :
  build_data params
  = list_to_map (reverse (filter (fun kv => kv.1 <> lit "__proto__") params)).
Proof.
  unfold build_data.
  induction params as [|kv params IH] using rev_ind; [done|].
  rewrite fold_left_app, filter_app, reverse_app. simpl. rewrite IH.
  unfold data_set at 1. unfold eqb.
  rewrite filter_cons, filter_nil.
  case_bool_decide as Hk; case_decide as Hk'; try done.
Qed.

Lemma build_data_no_proto (params : list (jsstr * jsstr)) :
  lit "__proto__" ∉ params.*1 ->
  build_data params = list_to_map (reverse params).
Proof.
  intros Hn. rewrite build_data_list_to_map. do 2 f_equal.
  induction params as [|kv params IH]; [done|].
  rewrite filter_cons. rewrite fmap_cons, not_elem_of_cons in Hn.
  destruct Hn as [Hn1 Hn2]. case_decide; [|congruence]. by rewrite IH.
Qed.



End VerifyFacts.

Section CheckStringFacts.

Import Utf8 Sha256 UrlSearchParams VerifyTelegram.

Lemma StronglySorted_filter {A} (Rel : relation A) (P : A -> Prop)
      `{forall x, Decision (P x)} (l : list A) :
  StronglySorted Rel l -> StronglySorted Rel (filter P l).
Proof.
  induction 1 as [|x l Hl IH Hx]; [constructor|].
  rewrite filter_cons. case_decide; [|done].
  constructor; [done|].
  apply List.Forall_forall. intros y Hy.
  apply (proj2 (list_elem_of_In _ _)), list_elem_of_filter in Hy.
  rewrite List.Forall_forall in Hx. apply Hx, list_elem_of_In. by destruct Hy.
Qed.

(** Sorting and leaving [hash] out commute. *)
Lemma sort_filter_comm (P : jsstr -> Prop) `{forall x, Decision (P x)} (keys : list jsstr) :
  filter P (merge_sort JsString.le keys) = merge_sort JsString.le (filter P keys).
Proof.
  apply (StronglySorted_unique JsString.le).
  - apply StronglySorted_filter, StronglySorted_merge_sort; apply _.
  - apply StronglySorted_merge_sort; apply _.
  - by rewrite !merge_sort_Permutation.
Qed.

(** The lines of the check-string: one per property other than [hash],
    in the order of the sorted names. *)
Lemma checkArr_filter (data : gmap jsstr jsstr) :
  checkArr data
  = map (line data) (filter (fun k => k <> lit "hash") (sorted_keys data)).
Proof.
  unfold checkArr. induction (sorted_keys data) as [|k ks IH]; [done|].
  simpl. rewrite filter_cons, IH. unfold eqb.
  case_bool_decide; case_decide; done.
Qed.

(** The names of the lines are in strictly ascending order, and are the
    names of the properties other than [hash]. *)
Lemma sorted_keys_spec (data : gmap jsstr jsstr) :
  StronglySorted JsString.le (sorted_keys data)
  /\ NoDup (sorted_keys data)
  /\ forall k, k ∈ sorted_keys data <-> is_Some (data !! k).
Proof.
  unfold sorted_keys. split; [|split].
  - apply StronglySorted_merge_sort; apply _.
  - rewrite merge_sort_Permutation. apply NoDup_fst_map_to_list.
  - intros k. rewrite merge_sort_Permutation.
    change (map fst (map_to_list data)) with ((map_to_list data).*1).
    rewrite list_elem_of_fmap. split.
    + intros ([k' v] & -> & Hin%elem_of_map_to_list). by exists v.
    + intros [v Hv]. exists (k, v). split; [done|]. by apply elem_of_map_to_list.
Qed.

(** Without a field named [__proto__], the check-string of the code is
    the canonical one. *)
Lemma checkString_canonical (raw : jsstr) :
  lit "__proto__" ∉ (URLSearchParams raw).*1 ->
  checkString (build_data (URLSearchParams raw)) = Spec.canonical raw.
Proof.
  intros Hn. unfold checkString, Spec.canonical, Spec.fields.
  rewrite (build_data_no_proto _ Hn).
  set (data := list_to_map (reverse (URLSearchParams raw)) : gmap jsstr jsstr).
  rewrite checkArr_filter. unfold sorted_keys.
  rewrite sort_filter_comm. f_equal.
  apply map_ext_in. intros k Hk. apply (proj2 (list_elem_of_In _ _)) in Hk.
  rewrite merge_sort_Permutation in Hk.
  apply list_elem_of_filter in Hk as [_ Hk].
  change (map fst (map_to_list data)) with ((map_to_list data).*1) in Hk.
  apply list_elem_of_fmap in Hk as ([k' v] & -> & Hin%elem_of_map_to_list).
  unfold line. simpl. by rewrite Hin.
Qed.

(** Hence the claim holds for every [raw] without a field of that name. *)
Lemma verify_canonical {R : Runtime} (raw secret receivedHash : jsstr) :
  subtle_available = true ->
  raw <> [] -> secret <> [] ->
  lit "__proto__" ∉ (URLSearchParams raw).*1 ->
  Spec.fields raw !! lit "hash" = Some receivedHash ->
  verifyTelegramInitData raw secret
  = Fulfilled (eqb (Spec.expected_tag raw secret) receivedHash).
Proof.
  intros Hs Hr Ht Hn Hh. unfold Spec.expected_tag.
  rewrite <- (checkString_canonical _ Hn).
  apply verify_hash; try done.
  by rewrite (build_data_no_proto _ Hn).
Qed.

End CheckStringFacts.

(** C2.  With a [hash] field, [verify] is to return [true] exactly when
    that field equals the tag of the canonical check-string, which has a
    line for every field other than [hash].  It does not: in
    [raw = "__proto__=1&hash=075b...b69e"] the field [__proto__] never
    becomes a property of [data], the check-string of the code is empty,
    and [verify] returns [true] for the tag of the empty string, while the
    canonical check-string is [__proto__=1] and has another tag. *)
Theorem verify_ignores_proto_field :
  let tag := lit "075b656751d505e23fbe214b500a49c35f4b883ea91f64feaa3fe874ea84b69e" in
  let raw := lit "__proto__=1&hash=" ++ tag in
  UrlSearchParams.URLSearchParams raw = [(lit "__proto__", lit "1"); (lit "hash", tag)]
  /\ Spec.canonical raw = lit "__proto__=1"
  /\ Spec.expected_tag raw (lit "S")
     = lit "2d0c98539a949650d2f927beecd3491adbba16a0f4dbfc2bd841bd3298aa59c9"
  /\ VerifyTelegram.checkString
       (VerifyTelegram.build_data (UrlSearchParams.URLSearchParams raw)) = []
  /\ @VerifyTelegram.verifyTelegramInitData Reference.runtime raw (lit "S")
     = Fulfilled true.
Proof. split_and!; vm_compute; reflexivity. Qed.

(** The example of the specification: the fields in any order, signed
    with the secret [S]. *)
Lemma verify_example :
  VerifyTelegram.checkString
    (VerifyTelegram.build_data (UrlSearchParams.URLSearchParams (lit "a=1&c=3&b=2&hash=x")))
  = lit "a=1" ++ LF ++ lit "b=2" ++ LF ++ lit "c=3"
  /\ @VerifyTelegram.verifyTelegramInitData Reference.runtime
       (lit "a=1&c=3&b=2&hash=a7427db5a326fc3d59026739063f2f67cd00d77c5b217ff322940a0ccf7981ca")
       (lit "S") = Fulfilled true
  /\ @VerifyTelegram.verifyTelegramInitData Reference.runtime
       (lit "a=1&c=3&b=2&hash=A7427DB5A326FC3D59026739063F2F67CD00D77C5B217FF322940A0CCF7981CA")
       (lit "S") = Fulfilled false.
Proof. split_and!; vm_compute; reflexivity. Qed.




(** ** The identity extractor *)

Section ExtractFacts.

Import Json UrlSearchParams VerifyTelegram.
Context {R : Runtime}.

(** No [user] field, or an empty one: [null]. *)
Lemma extractUserId_absent (raw : jsstr) :
  get (lit "user") (URLSearchParams raw) = None ->
  extractUserId raw = None.
Proof. unfold extractUserId. by intros ->. Qed.

(** A [user] field that is no JSON text: [null]. *)
Lemma extractUserId_not_json (raw userJson : jsstr) :
  get (lit "user") (URLSearchParams raw) = Some userJson ->
  Json.parse userJson = None ->
  extractUserId raw = None.
Proof. unfold extractUserId. intros -> ->. by destruct userJson. Qed.

(** A [user] object with an [id]: the [id] as a string (or [null], when
    the conversion throws). *)
Lemma extractUserId_id (raw userJson : jsstr) members (id : json) :
  get (lit "user") (URLSearchParams raw) = Some userJson ->
  Json.parse userJson = Some (JObj members) ->
  member (lit "id") members = Some id ->
  extractUserId raw = to_string id.
Proof.
  unfold extractUserId. intros -> Hp Hm.
  destruct userJson as [|c u]; [done|]. rewrite Hp. simpl. by rewrite Hm.
Qed.

(** A [user] object without [id]: [String(undefined)], not [null]. *)
Lemma extractUserId_no_id (raw userJson : jsstr) members :
  get (lit "user") (URLSearchParams raw) = Some userJson ->
  Json.parse userJson = Some (JObj members) ->
  member (lit "id") members = None ->
  extractUserId raw = Some (lit "undefined").
Proof.
  unfold extractUserId. intros -> Hp Hm.
  destruct userJson as [|c u]; [done|]. rewrite Hp. simpl. by rewrite Hm.
Qed.

End ExtractFacts.

(** C3.  [extractUserId] is to return [null] when the parsed JSON has no
    [id].  It does not: for [raw = "user={}"] the [user] field parses to an
    object without [id], [user.id] is [undefined], and the function returns
    the string ["undefined"]. *)
Theorem extractUserId_without_id_is_undefined_string (R : Runtime) :
  UrlSearchParams.get (lit "user") (UrlSearchParams.URLSearchParams (lit "user={}"))
    = Some (lit "{}")
  /\ Json.parse (lit "{}") = Some (Json.JObj [])
  /\ VerifyTelegram.extractUserId (lit "user={}") = Some (lit "undefined").
Proof. split_and!; vm_compute; reflexivity. Qed.

(** ** The tip endpoint and the verification it skips *)

Section TipFacts.

Import VerifyTelegram TipApi.
Context {R : Runtime}.
Variable token : option jsstr.
Variable generateTip : jsstr -> list jsstr -> Json.completion jsstr.

(** No request is answered with 401: the value tested is the promise
    [verifyTelegramInitData] returns, never what it settles to. *)
Lemma handler_never_401 (req : Request) :
  status (fst (handler token generateTip req)) <> 401.
Proof.
  unfold handler, ToBoolean.
  repeat (case_match; simpl; try done).
Qed.

End TipFacts.

(** C1.  The handler is to call tip generation only when the verification
    of [initData] returns [true], and to answer 401 otherwise.  It does
    not: for [initData = "a=1"], which has no [hash] and which
    [verifyTelegramInitData] rejects, a POST request makes exactly one call
    of [generateTip] and is not answered with 401.  The handler tests the
    promise the [async] function returns (no [await]), and a promise is
    truthy. *)
Theorem handler_calls_generateTip_unverified
    (R : Runtime) (token : option jsstr)
    (generateTip : jsstr -> list jsstr -> Json.completion jsstr) :
  let initData := lit "a=1" in
  let req := TipApi.MkRequest (lit "POST") (TipApi.MkBody None None (Some initData)) in
  VerifyTelegram.verifyTelegramInitData initData (default [] token) = Fulfilled false
  /\ length (snd (TipApi.handler token generateTip req)) = 1%nat
  /\ TipApi.status (fst (TipApi.handler token generateTip req)) <> 401.
Proof.
  intros initData req. split; [|split].
  - destruct token as [[|c t]|]; reflexivity.
  - unfold TipApi.handler. simpl.
    destruct (generateTip _ _); reflexivity.
  - apply handler_never_401.
Qed.

(** ** The values handed to tip generation *)

Section SanitizeFacts.

Import Json TipApi.
Context {R : Runtime}.
Variable token : option jsstr.
Variable generateTip : jsstr -> list jsstr -> completion jsstr.

Lemma slice_0 (n : nat) (s : jsstr) : slice 0 n s = take n s.
Proof. unfold slice. simpl. by rewrite Nat.sub_0_r. Qed.

(** Each string handed over is the item's conversion, cut at 200 units. *)
Lemma map_String_spec (items : list json) (es : list jsstr) :
  map_String items = Some es ->
  Forall2 (fun item e => exists str, to_string item = Some str /\ e = take 200 str)
          items es.
Proof.
  revert es. induction items as [|item items IH]; intros es; simpl.
  - intros [= <-]. constructor.
  - destruct (to_string item) as [str|] eqn:Hs; [|done].
    destruct (map_String items) as [strs|]; [|done].
    intros [= <-]. constructor; [|by apply IH].
    exists str. by rewrite slice_0.
Qed.

(** Every call of [generateTip] is the one with the sanitized values. *)
Lemma handler_calls (req : Request) (lvl : jsstr) (es : list jsstr) :
  (lvl, es) ∈ snd (handler token generateTip req) ->
  finalLevel (level (body req)) = Some lvl /\ errs (errors (body req)) = Some es.
Proof.
  unfold handler.
  destruct (negb _); [by intros ?%elem_of_nil|].
  destruct (initData (body req)) as [[|c i]|]; [by intros ?%elem_of_nil| |by intros ?%elem_of_nil].
  unfold ToBoolean. simpl.
  destruct (finalLevel _) as [lvl'|]; [|by intros ?%elem_of_nil].
  destruct (errs _) as [es'|]; [|by intros ?%elem_of_nil].
  destruct (generateTip lvl' es'); intros [= -> ->]%list_elem_of_singleton; done.
Qed.

(** A POST request with a non-empty [initData] whose level and errors
    convert without an exception makes the call. *)
Lemma handler_makes_call (req : Request) (lvl : jsstr) (es : list jsstr) c i :
  method req = lit "POST" ->
  initData (body req) = Some (c :: i) ->
  finalLevel (level (body req)) = Some lvl ->
  errs (errors (body req)) = Some es ->
  snd (handler token generateTip req) = [(lvl, es)].
Proof.
  intros Hm Hi Hl He. unfold handler. rewrite Hm, Hi, Hl, He. simpl.
  by destruct (generateTip lvl es).
Qed.

End SanitizeFacts.

(** C10.  Whatever the request, the values a call of [generateTip]
    receives are sanitized.  The level is one of [beginner],
    [intermediate], [advanced]: the lowercased string of the level sent
    ([beginner] when none was sent) when that is one of the three, and
    [beginner] otherwise.  The errors are the empty list when no array was
    sent; otherwise they are the strings of the first 20 items at most,
    each cut at 200 code units. *)
Theorem handler_sanitizes
    (R : Runtime) (token : option jsstr)
    (generateTip : jsstr -> list jsstr -> Json.completion jsstr)
    (req : TipApi.Request) (lvl : jsstr) (es : list jsstr) :
  (lvl, es) ∈ snd (TipApi.handler token generateTip req) ->
  let sent := TipApi.level (TipApi.body req) in
  lvl ∈ TipApi.allowed
  /\ (exists s,
        Json.ToString (if Json.truthy sent then sent else Some (Json.JStr (lit "beginner")))
        = Some s
        /\ (toLowerCase s ∈ TipApi.allowed -> lvl = toLowerCase s)
        /\ (toLowerCase s ∉ TipApi.allowed -> lvl = lit "beginner"))
  /\ match TipApi.errors (TipApi.body req) with
     | Some (Json.JArr items) =>
         Forall2 (fun item e => exists str, Json.to_string item = Some str /\ e = take 200 str)
                 (take 20 items) es
     | _ => es = []
     end
  /\ (length es <= 20)%nat
  /\ Forall (fun e => (length e <= 200)%nat) es.
Proof.
  intros Hin sent. apply handler_calls in Hin as [Hl He].
  unfold TipApi.finalLevel in Hl. fold sent in Hl.
  destruct (Json.ToString _) as [s|] eqn:Hs; [|done]. simpl in Hl.
  injection Hl as <-.
  assert (Forall2 (fun item e => exists str, Json.to_string item = Some str /\ e = take 200 str)
            match TipApi.errors (TipApi.body req) with
            | Some (Json.JArr items) => take 20 items
            | _ => []
            end es) as Hes.
  { unfold TipApi.errs in He.
    destruct (TipApi.errors _) as [[| | | |items|]|]; try (injection He as <-; constructor).
    by apply map_String_spec. }
  split_and!.
  - case_bool_decide; [done|]. unfold TipApi.allowed. set_solver.
  - exists s. split_and!; [done| |]; intros; case_bool_decide; done.
  - destruct (TipApi.errors _) as [[| | | |items|]|]; first [done | by inversion Hes].
  - apply Forall2_length in Hes. rewrite <- Hes.
    destruct (TipApi.errors _) as [[| | | |items|]|]; simpl; try lia.
    rewrite length_take. lia.
  - clear He. induction Hes as [|item e items' es' (str & _ & ->) _ IH]; constructor; [|done].
    rewrite length_take. lia.
Qed.

Lemma handler_sanitizes_witness :
  let req := TipApi.MkRequest (lit "POST")
               (TipApi.MkBody (Some (Json.JStr (lit "ADVANCED")))
                              (Json.parse (jsq "['x', null, ['y', 'z']]"))
                              (Some (lit "a=1"))) in
  let lvl := lit "advanced" in
  let es := [lit "x"; lit "null"; lit "y,z"] in
  let generateTip := fun (_ : jsstr) (_ : list jsstr) => Some (lit "tip") in
  let sent := TipApi.level (TipApi.body req) in
  lvl ∈ TipApi.allowed
  /\ (exists s,
        @Json.ToString Reference.runtime
          (if @Json.truthy Reference.runtime sent then sent else Some (Json.JStr (lit "beginner")))
        = Some s
        /\ (@toLowerCase Reference.runtime s ∈ TipApi.allowed
            -> lvl = @toLowerCase Reference.runtime s)
        /\ (@toLowerCase Reference.runtime s ∉ TipApi.allowed -> lvl = lit "beginner"))
  /\ match TipApi.errors (TipApi.body req) with
     | Some (Json.JArr items) =>
         Forall2 (fun item e => exists str,
                      @Json.to_string Reference.runtime item = Some str /\ e = take 200 str)
                 (take 20 items) es
     | _ => es = []
     end
  /\ (length es <= 20)%nat
  /\ Forall (fun e => (length e <= 200)%nat) es.
Proof.
  intros req lvl es generateTip.
  apply (handler_sanitizes Reference.runtime (Some (lit "S")) generateTip req lvl es).
  vm_compute. apply list_elem_of_singleton. reflexivity.
Defined.

(** ** The streaming decoder and [parseSSELines] *)

Section DecoderFacts.

Import Utf8.

Lemma run_app (st : dstate) (a b : bytes) :
  run st (a ++ b)
  = (fst (run (fst (run st a)) b), snd (run st a) ++ snd (run (fst (run st a)) b)).
Proof.
  revert st. induction a as [|x a IH]; intros st; simpl.
  - by destruct (run st b).
  - destruct (step st x) as [st1 out1]. rewrite IH.
    destruct (run st1 a) as [st2 out2]. simpl.
    destruct (run st2 b) as [st3 out3]. simpl. by rewrite app_assoc.
Qed.

Lemma of_scalars_app (a b : list N) : of_scalars (a ++ b) = of_scalars a ++ of_scalars b.
Proof. unfold of_scalars. apply flat_map_app. Qed.

(** The text a streaming [TextDecoder] gives for two chunks is the text it
    gives for their concatenation: a split inside a multi-byte character
    changes nothing. *)
Lemma decode_stream_app (d : TextDecoder) (a b : bytes) :
  decode_stream d (a ++ b)
  = (fst (decode_stream (fst (decode_stream d a)) b),
     snd (decode_stream d a) ++ snd (decode_stream (fst (decode_stream d a)) b)).
Proof.
  unfold decode_stream. rewrite run_app.
  destruct (run (dec_state d) a) as [st1 out1]. cbn [fst snd].
  destruct out1 as [|cp out1]; cbn [fst snd app dec_state bom_seen].
  - by destruct (run st1 b) as [st2 [|cp2 out2]].
  - destruct (run st1 b) as [st2 out2]. cbn [fst snd].
    replace (match out2 with
             | [] => (MkDecoder st2 true, [])
             | cp0 :: rest =>
                 (MkDecoder st2 true,
                  of_scalars (if negb true && (cp0 =? 65279) then rest else out2))
             end) with (MkDecoder st2 true, of_scalars out2) by (by destruct out2).
    cbn [fst snd]. f_equal.
    destruct (negb (bom_seen d) && (cp =? 65279)).
    + apply of_scalars_app.
    + apply (of_scalars_app (cp :: out1) out2).
Qed.

Lemma decode_stream_split_character :
  let euro := [226; 130; 172] in
  snd (decode_stream newTextDecoder euro) = [8364]
  /\ snd (decode_stream (fst (decode_stream newTextDecoder [226; 130])) [172]) = [8364]
  /\ snd (decode_stream newTextDecoder [226; 130]) = [].
Proof. split_and!; vm_compute; reflexivity. Qed.

End DecoderFacts.

Section ParseFacts.

Lemma find_first_bound (p s : jsstr) (i : nat) :
  find_first p s = Some i -> (i + length p <= length s)%nat.
Proof.
  revert i. induction s as [|c s IH]; intros i; simpl.
  - destruct (startsWith p []) eqn:Hs; [|by destruct p].
    intros [= <-]. by apply startsWith_length in Hs.
  - destruct (startsWith p (c :: s)) eqn:Hs.
    + intros [= <-]. by apply startsWith_length in Hs.
    + destruct (find_first p s) as [j|]; [|done]. simpl. intros [= <-].
      specialize (IH j eq_refl). lia.
Qed.

Lemma indexOf_bound (p s : jsstr) (start idx : nat) :
  p <> [] ->
  indexOf p start s = Some idx ->
  (start <= idx /\ idx + length p <= length s)%nat.
Proof.
  intros Hp. unfold indexOf.
  destruct (find_first p (drop start s)) as [i|] eqn:Hf; [|done].
  simpl. intros [= <-]. apply find_first_bound in Hf.
  rewrite length_drop in Hf.
  assert (0 < length p)%nat by (destruct p; [done|simpl; lia]). lia.
Qed.

(** The loop of [parseSSELines] ends by itself: more fuel than the units
    left after [start] changes nothing. *)
Lemma parseSSELines_loop_fuel (f1 f2 : nat) (chunk : jsstr) (start : nat)
      (lines : list jsstr) :
  (length chunk - start < f1)%nat -> (f1 <= f2)%nat ->
  Sse.parseSSELines_loop f1 chunk start lines
  = Sse.parseSSELines_loop f2 chunk start lines.
Proof.
  revert f2 start lines. induction f1 as [|f1 IH]; intros f2 start lines H1 H2; [lia|].
  destruct f2 as [|f2]; [lia|]. simpl.
  destruct (indexOf Sse.LFLF start chunk) as [idx|] eqn:Hi; [|done].
  apply indexOf_bound in Hi as [Hs Hl]; [|done]. simpl in Hl.
  apply IH; lia.
Qed.

Lemma parseSSELines_enough_fuel (fuel : nat) (chunk : jsstr) :
  (length chunk < fuel)%nat ->
  Sse.parseSSELines chunk = Sse.parseSSELines_loop fuel chunk 0 [].
Proof.
  intros H. unfold Sse.parseSSELines. apply parseSSELines_loop_fuel; lia.
Qed.

(** Text without a delimiter gives no frame; at the end of the stream the
    buffer is dropped with whatever it holds. *)
Lemma parseSSELines_no_delimiter (chunk : jsstr) :
  indexOf Sse.LFLF 0 chunk = None -> Sse.parseSSELines chunk = [].
Proof. unfold Sse.parseSSELines. simpl. by intros ->. Qed.

Lemma unterminated_frame_is_dropped (R : Runtime) :
  let res := MkFetch true (Some (MkStream [jsq "data: {'delta':'Hel'}" ++ [10; 10];
                                           jsq "data: {'delta':'lo'}" ++ [10]] false)) in
  Sse.decoded_frames Utf8.newTextDecoder [] (chunks (MkStream
      [jsq "data: {'delta':'Hel'}" ++ [10; 10]; jsq "data: {'delta':'lo'}" ++ [10]] false))
  = [jsq "data: {'delta':'Hel'}"]
  /\ Sse.ssePost res = ([Json.JStr (lit "Hel")], false).
Proof. split; vm_compute; reflexivity. Qed.

Lemma sse_for_lines_cons (R : Runtime) (line : jsstr) (rest : list jsstr) :
  Sse.for_lines (line :: rest)
  = match Sse.payload_of line with
    | None => Sse.for_lines rest
    | Some payload =>
        if eqb payload (lit "[DONE]") then ([], true)
        else
          match Json.parse payload with
          | None => Sse.for_lines rest
          | Some obj =>
              match Json.get_prop obj (lit "delta") with
              | None => Sse.for_lines rest
              | Some None => Sse.for_lines rest
              | Some (Some delta) =>
                  if Json.truthy (Some delta) then
                    (delta :: fst (Sse.for_lines rest), snd (Sse.for_lines rest))
                  else Sse.for_lines rest
              end
          end
    end.
Proof.
  simpl. repeat case_match; done.
Qed.

Lemma sse_for_lines_app (R : Runtime) (l1 l2 : list jsstr) :
  Sse.for_lines (l1 ++ l2)
  = if snd (Sse.for_lines l1) then Sse.for_lines l1
    else (fst (Sse.for_lines l1) ++ fst (Sse.for_lines l2), snd (Sse.for_lines l2)).
Proof.
  induction l1 as [|line l1 IH].
  - simpl. by destruct (Sse.for_lines l2).
  - rewrite <- app_comm_cons, !sse_for_lines_cons.
    destruct (Sse.payload_of line) as [p|]; [|apply IH].
    destruct (eqb p _); [done|].
    destruct (Json.parse p) as [obj|]; [|apply IH].
    destruct (Json.get_prop obj _) as [[delta|]|]; try apply IH.
    destruct (Json.truthy (Some delta)); [|apply IH].
    rewrite IH. by destruct (Sse.for_lines l1) as [ys []].
Qed.

(** What [ssePost] yields is what its loop over the lines yields on the
    frames decoded, in order. *)
Lemma read_loop_decoded_frames (R : Runtime) (decoder : Utf8.TextDecoder)
      (buffer : jsstr) (rest : list Utf8.bytes) :
  Sse.read_loop decoder buffer rest
  = Sse.for_lines (Sse.decoded_frames decoder buffer rest).
Proof.
  revert decoder buffer. induction rest as [|value rest IH]; intros decoder buffer; [done|].
  simpl. destruct (Utf8.decode_stream decoder value) as [decoder' text].
  rewrite sse_for_lines_app, IH.
  destruct (Sse.for_lines (Sse.parseSSELines _)) as [ys []]; simpl; [done|].
  by destruct (Sse.for_lines (Sse.decoded_frames _ _ _)).
Qed.

End ParseFacts.

(** ** Chunk boundaries *)

(** C5.  Decoding is to give the same frames however the bytes are split
    into chunks.  It does not: the bytes [a LF LF LF b LF LF] give the
    frames [a] and [LF b] in one chunk, and the frames [a] and [b] when
    split after the third line feed.  [parseSSELines] stops before the
    third line feed, and [lastIndexOf] finds the delimiter made of the
    second and the third, so the buffer kept is shorter than what was left
    unparsed. *)
Theorem decoded_frames_depend_on_chunking :
  let c1 := lit "a" ++ [10; 10; 10] in
  let c2 := lit "b" ++ [10; 10] in
  Sse.decoded_frames Utf8.newTextDecoder [] [c1 ++ c2] = [lit "a"; 10 :: lit "b"]
  /\ Sse.decoded_frames Utf8.newTextDecoder [] [c1; c2] = [lit "a"; lit "b"].
Proof. split; vm_compute; reflexivity. Qed.

(** The same difference seen by the consumer of [ssePost]: the second
    delta is lost in one chunk and delivered in two. *)
Lemma ssePost_depends_on_chunking (R : Runtime) :
  let c1 := jsq "data: {'delta':'A'}" ++ [10; 10; 10] in
  let c2 := jsq "data: {'delta':'B'}" ++ [10; 10] in
  Sse.ssePost (MkFetch true (Some (MkStream [c1 ++ c2] false)))
    = ([Json.JStr (lit "A")], false)
  /\ Sse.ssePost (MkFetch true (Some (MkStream [c1; c2] false)))
    = ([Json.JStr (lit "A"); Json.JStr (lit "B")], false).
Proof. split; vm_compute; reflexivity. Qed.

(** ** The accumulators and the transcript *)

Section TranscriptFacts.

(** [write_last] of [send] and [append_to_last] of [handleSend] keep the
    length of the transcript and every entry but the last. *)
Lemma write_last_length (a : jsstr) (curr : list ChatMsg) :
  length (StreamPage.write_last a curr) = length curr.
Proof.
  unfold StreamPage.write_last. destruct (last curr); [|done].
  case_bool_decide; [|done]. by rewrite length_insert.
Qed.

Lemma write_last_other (a : jsstr) (curr : list ChatMsg) (i : nat) :
  i <> (length curr - 1)%nat ->
  StreamPage.write_last a curr !! i = curr !! i.
Proof.
  intros Hi. unfold StreamPage.write_last. destruct (last curr); [|done].
  case_bool_decide; [|done]. by rewrite list_lookup_insert_ne.
Qed.

Lemma write_last_snoc (a c : jsstr) (l : list ChatMsg) :
  StreamPage.write_last a (l ++ [MkMsg assistant c]) = l ++ [MkMsg assistant a].
Proof.
  unfold StreamPage.write_last. rewrite last_snoc. simpl.
  rewrite length_app. simpl.
  replace (length l + 1 - 1)%nat with (length l + 0)%nat by lia.
  by rewrite insert_app_r.
Qed.

Lemma append_to_last_length (s : jsstr) (prev : list ChatMsg) :
  length (ChatPage.append_to_last s prev) = length prev.
Proof.
  unfold ChatPage.append_to_last. destruct (last prev); [|done].
  case_bool_decide; [|done]. by rewrite length_insert.
Qed.

Lemma append_to_last_other (s : jsstr) (prev : list ChatMsg) (i : nat) :
  i <> (length prev - 1)%nat ->
  ChatPage.append_to_last s prev !! i = prev !! i.
Proof.
  intros Hi. unfold ChatPage.append_to_last. destruct (last prev); [|done].
  case_bool_decide; [|done]. by rewrite list_lookup_insert_ne.
Qed.

Lemma append_to_last_snoc (s c : jsstr) (l : list ChatMsg) :
  ChatPage.append_to_last s (l ++ [MkMsg assistant c])
  = l ++ [MkMsg assistant (c ++ s)].
Proof.
  unfold ChatPage.append_to_last. rewrite last_snoc. simpl.
  rewrite length_app. simpl.
  replace (length l + 1 - 1)%nat with (length l + 0)%nat by lia.
  by rewrite insert_app_r.
Qed.

Context {R : Runtime}.

(** In [handleSend] of [index.tsx] and in [send], an apply step leaves
    every entry of the transcript but the last as it was. *)
Lemma on_delta_other (delta : Json.json) (prev next : list ChatMsg) (i : nat) :
  ChatPage.on_delta delta prev = Some next ->
  length next = length prev
  /\ (i <> (length prev - 1)%nat -> next !! i = prev !! i).
Proof.
  unfold ChatPage.on_delta. destruct (last prev) as [m|]; [|by intros [= <-]].
  case_bool_decide; [|by intros [= <-]].
  destruct (Json.to_string delta) as [s|]; [|done]. simpl. intros [= <-].
  split; [apply append_to_last_length|apply append_to_last_other].
Qed.

Lemma on_line_other (line : jsstr) (st : StreamPage.State) (i : nat) :
  let st' := fst (StreamPage.on_line line st) in
  length (StreamPage.messages st') = length (StreamPage.messages st)
  /\ (i <> (length (StreamPage.messages st) - 1)%nat ->
      StreamPage.messages st' !! i = StreamPage.messages st !! i).
Proof.
  unfold StreamPage.on_line.
  destruct (StreamPage.payload_of line) as [p|]; [|done].
  destruct (eqb p _); [done|].
  destruct (StreamPage.accumulate p _) as [a|]; [|done]. simpl.
  split; [apply write_last_length|apply write_last_other].
Qed.

(** The three cases of a line in [send]. *)
Lemma on_line_skip (line : jsstr) (st : StreamPage.State) :
  StreamPage.payload_of line = None -> StreamPage.on_line line st = (st, true).
Proof. unfold StreamPage.on_line. by intros ->. Qed.

Lemma on_line_done (line : jsstr) (st : StreamPage.State) :
  StreamPage.payload_of line = Some (lit "[DONE]") ->
  StreamPage.on_line line st
  = (StreamPage.MkState (StreamPage.messages st) false (StreamPage.assistant_text st), false).
Proof. unfold StreamPage.on_line. by intros ->. Qed.

Lemma on_line_payload (line payload a : jsstr) (st : StreamPage.State) :
  StreamPage.payload_of line = Some payload ->
  eqb payload (lit "[DONE]") = false ->
  StreamPage.accumulate payload (StreamPage.assistant_text st) = Some a ->
  StreamPage.on_line line st
  = (StreamPage.MkState (StreamPage.write_last a (StreamPage.messages st))
                        (StreamPage.streaming st) a, true).
Proof. unfold StreamPage.on_line. by intros -> -> ->. Qed.

(** What [accumulate] does with an object: a truthy [error] is recorded,
    otherwise a truthy [delta] is appended. *)
Lemma accumulate_error (payload a s : jsstr) members (e : Json.json) :
  Json.parse payload = Some (Json.JObj members) ->
  Json.member (lit "error") members = Some e ->
  Json.truthy (Some e) = true ->
  Json.to_string e = Some s ->
  StreamPage.accumulate payload a = Some (a ++ LF ++ lit "[error] " ++ s).
Proof.
  unfold StreamPage.accumulate, Json.ToString. intros -> He Ht Hs.
  cbn [mbind option_bind Json.get_prop]. rewrite He.
  cbn [mbind option_bind]. rewrite Ht. by rewrite Hs.
Qed.

Lemma accumulate_delta (payload a s : jsstr) members (d : Json.json) :
  Json.parse payload = Some (Json.JObj members) ->
  Json.truthy (Json.member (lit "error") members) = false ->
  Json.member (lit "delta") members = Some d ->
  Json.truthy (Some d) = true ->
  Json.to_string d = Some s ->
  StreamPage.accumulate payload a = Some (a ++ s).
Proof.
  unfold StreamPage.accumulate, Json.ToString. intros -> He Hd Ht Hs.
  cbn [mbind option_bind Json.get_prop]. rewrite He, Hd.
  cbn [mbind option_bind]. rewrite Ht. by rewrite Hs.
Qed.

End TranscriptFacts.

(** ** [handleSend] by index *)

(** C9.  An apply step is to change nothing but the content of the
    assistant's message created for the turn.  The [handleSend] of
    [src/unnamed/part_002] does: with twenty messages in the transcript, [assistantIndex] is 20,
    the index of the user's message just added, and the delta is appended
    to that message, while the assistant's message at index 21 stays
    empty. *)
Theorem indexed_handleSend_writes_to_another_entry (R : Runtime) :
  let messages :=
    Some (MkMsg system (lit "s")) :: replicate 19 (Some (MkMsg assistant (lit "m"))) in
  let res := MkFetch true (Some (MkStream [jsq "data: {'delta':'Hel'}" ++ [10; 10]] false)) in
  ChatPageByIndex.history_length messages = 20%nat
  /\ ChatPageByIndex.handleSend (lit "hi") messages res
     = Some (messages ++ [Some (MkMsg user (lit "hiHel")); Some (MkMsg assistant [])]).
Proof. split; vm_compute; reflexivity. Qed.

(** On the two messages the page starts with, the delta goes to a new
    fifth entry and the assistant's message of the turn stays empty. *)
Lemma indexed_handleSend_first_turn (R : Runtime) :
  let messages := [Some (MkMsg system (lit "s")); Some (MkMsg assistant (lit "m"))] in
  let res := MkFetch true (Some (MkStream [jsq "data: {'delta':'Hel'}" ++ [10; 10]] false)) in
  ChatPageByIndex.handleSend (lit "hi") messages res
  = Some (messages ++ [Some (MkMsg user (lit "hi")); Some (MkMsg assistant []);
                       Some (MkMsg assistant (lit "Hel"))]).
Proof. vm_compute; reflexivity. Qed.

(** ** Runs of [send] and of [handleSend] *)

Section RunFacts.

Context {R : Runtime}.

Lemma for_lines_cons (line : jsstr) (rest : list jsstr) (st : StreamPage.State) :
  StreamPage.for_lines (line :: rest) st
  = if snd (StreamPage.on_line line st)
    then StreamPage.for_lines rest (fst (StreamPage.on_line line st))
    else (fst (StreamPage.on_line line st), false).
Proof. simpl. by destruct (StreamPage.on_line line st) as [st' []]. Qed.

Lemma read_loop_cons (decoder : Utf8.TextDecoder) (value : Utf8.bytes)
      (rest : list Utf8.bytes) (st : StreamPage.State) :
  StreamPage.read_loop decoder (value :: rest) st
  = let lines := splitOn 10 (snd (Utf8.decode_stream decoder value)) in
    if snd (StreamPage.for_lines lines st)
    then StreamPage.read_loop (fst (Utf8.decode_stream decoder value)) rest
                              (fst (StreamPage.for_lines lines st))
    else (fst (StreamPage.for_lines lines st), false).
Proof.
  simpl. destruct (Utf8.decode_stream decoder value) as [d chunk]. simpl.
  by destruct (StreamPage.for_lines _ st) as [st' []].
Qed.

Lemma snoc_two {A} (l : list A) (x y : A) : l ++ [x; y] = (l ++ [x]) ++ [y].
Proof. by rewrite <- app_assoc. Qed.

Lemma on_deltas_strings (ds : list jsstr) (l : list ChatMsg) (c : jsstr) :
  ChatPage.on_deltas (map Json.JStr ds) (l ++ [MkMsg assistant c])
  = Some (l ++ [MkMsg assistant (c ++ concat ds)]).
Proof.
  revert c. induction ds as [|d ds IH]; intros c; simpl.
  - by rewrite app_nil_r.
  - unfold ChatPage.on_delta. rewrite last_snoc. simpl.
    rewrite append_to_last_snoc, IH. by rewrite <- app_assoc.
Qed.

End RunFacts.

Ltac send_line :=
  rewrite for_lines_cons;
  first
    [ rewrite on_line_skip by (vm_compute; reflexivity)
    | rewrite on_line_done by (vm_compute; reflexivity)
    | erewrite on_line_payload; [ | vm_compute; reflexivity ..] ];
  cbn [fst snd StreamPage.messages StreamPage.streaming StreamPage.assistant_text];
  rewrite ?write_last_snoc.

Ltac send_chunk :=
  rewrite read_loop_cons;
  match goal with
  | |- context [Utf8.decode_stream ?d ?v] =>
      let x := eval vm_compute in (Utf8.decode_stream d v) in
      change (Utf8.decode_stream d v) with x
  end;
  cbn [fst snd];
  match goal with
  | |- context [splitOn 10 ?c] =>
      let x := eval vm_compute in (splitOn 10 c) in
      change (splitOn 10 c) with x
  end;
  cbv zeta;
  repeat send_line;
  cbn [StreamPage.for_lines fst snd].

(** C7.  From an empty assistant message, the payloads [{"delta":"Hel"}],
    [{"delta":"lo"}] and [[DONE]] give the content [Hello]: each delta is
    appended as it is, in order, and the sentinel ends the turn without
    touching the message.  This holds for [send] and for [ssePost] with
    [handleSend]; what follows the sentinel is not consumed. *)
Theorem hello_then_done
    (R : Runtime) (msgs : list ChatMsg) (input : jsstr) (c : N) (text : jsstr) :
  trim input = c :: text ->
  let frames := [jsq "data: {'delta':'Hel'}" ++ [10; 10];
                 jsq "data: {'delta':'lo'}" ++ [10; 10];
                 lit "data: [DONE]" ++ [10; 10];
                 jsq "data: {'delta':'!'}" ++ [10; 10]] in
  let res := MkFetch true (Some (MkStream frames false)) in
  (forall a, StreamPage.accumulate (jsq "{'delta':'Hel'}") a = Some (a ++ lit "Hel"))
  /\ (forall a, StreamPage.accumulate (jsq "{'delta':'lo'}") a = Some (a ++ lit "lo"))
  /\ (forall st,
        StreamPage.on_line (lit "data: [DONE]") st
        = (StreamPage.MkState (StreamPage.messages st) false (StreamPage.assistant_text st),
           false))
  /\ StreamPage.send input msgs false res
     = (msgs ++ [MkMsg user input; MkMsg assistant (lit "Hello")], false)
  /\ Sse.ssePost res = ([Json.JStr (lit "Hel"); Json.JStr (lit "lo")], false)
  /\ ChatPage.handleSend input msgs res
     = Some (msgs ++ [MkMsg user (c :: text); MkMsg assistant (lit "Hello")]).
Proof.
  intros Htrim frames res.
  assert (Sse.ssePost res = ([Json.JStr (lit "Hel"); Json.JStr (lit "lo")], false)) as Hsse
    by (vm_compute; reflexivity).
  split_and!.
  - intros a. eapply accumulate_delta; vm_compute; reflexivity.
  - intros a. eapply accumulate_delta; vm_compute; reflexivity.
  - intros st. apply on_line_done. vm_compute; reflexivity.
  - subst res frames. unfold StreamPage.send. rewrite Htrim.
    cbn [res_ok res_body chunks read_fails]. cbv zeta.
    do 3 send_chunk. by rewrite <- app_assoc.
  - exact Hsse.
  - unfold ChatPage.handleSend. rewrite Htrim, Hsse.
    rewrite snoc_two.
    change [Json.JStr (lit "Hel"); Json.JStr (lit "lo")]
      with (map Json.JStr [lit "Hel"; lit "lo"]).
    rewrite on_deltas_strings. simpl. by rewrite <- app_assoc.
Qed.

Lemma hello_then_done_witness :
  let msgs := [MkMsg system (lit "s")] in
  let input := lit " hi " in
  let frames := [jsq "data: {'delta':'Hel'}" ++ [10; 10];
                 jsq "data: {'delta':'lo'}" ++ [10; 10];
                 lit "data: [DONE]" ++ [10; 10];
                 jsq "data: {'delta':'!'}" ++ [10; 10]] in
  let res := MkFetch true (Some (MkStream frames false)) in
  (forall a, @StreamPage.accumulate Reference.runtime (jsq "{'delta':'Hel'}") a
             = Some (a ++ lit "Hel"))
  /\ (forall a, @StreamPage.accumulate Reference.runtime (jsq "{'delta':'lo'}") a
                = Some (a ++ lit "lo"))
  /\ (forall st,
        @StreamPage.on_line Reference.runtime (lit "data: [DONE]") st
        = (StreamPage.MkState (StreamPage.messages st) false (StreamPage.assistant_text st),
           false))
  /\ @StreamPage.send Reference.runtime input msgs false res
     = (msgs ++ [MkMsg user input; MkMsg assistant (lit "Hello")], false)
  /\ @Sse.ssePost Reference.runtime res
     = ([Json.JStr (lit "Hel"); Json.JStr (lit "lo")], false)
  /\ @ChatPage.handleSend Reference.runtime input msgs res
     = Some (msgs ++ [MkMsg user (lit "hi"); MkMsg assistant (lit "Hello")]).
Proof.
  intros msgs input frames res.
  apply (hello_then_done Reference.runtime msgs input 104 (lit "i")).
  vm_compute. reflexivity.
Defined.

(** ** Error payloads *)

(** C4, as stated, fails: in [send] a payload with an [error] does not end
    the consumption of the lines; the loop goes on. *)
Lemma send_goes_on_after_error :
  ~ (forall (R : Runtime) (line payload : jsstr) (members : list (jsstr * Json.json))
            (e : Json.json) (st : StreamPage.State),
        StreamPage.payload_of line = Some payload ->
        Json.parse payload = Some (Json.JObj members) ->
        Json.member (lit "error") members = Some e ->
        snd (StreamPage.on_line line st) = false).
Proof.
  intros H.
  specialize (H Reference.runtime (jsq "data: {'error':'rate_limited'}")
                (jsq "{'error':'rate_limited'}")
                [(lit "error", Json.JStr (lit "rate_limited"))]
                (Json.JStr (lit "rate_limited"))
                (StreamPage.MkState [] true [])).
  assert (@StreamPage.on_line Reference.runtime (jsq "data: {'error':'rate_limited'}")
            (StreamPage.MkState [] true [])
          = (StreamPage.MkState [] true (LF ++ lit "[error] rate_limited"), true)) as E
    by (vm_compute; reflexivity).
  rewrite E in H. simpl in H.
  assert (true = false) as Hx; [|discriminate Hx].
  apply H; vm_compute; reflexivity.
Qed.

(** A delta that follows the error is appended after the annotation. *)
Lemma send_appends_after_error (R : Runtime) (msgs : list ChatMsg) (input : jsstr)
      (c : N) (text : jsstr) :
  trim input = c :: text ->
  StreamPage.send input msgs false
    (MkFetch true (Some (MkStream [jsq "data: {'error':'rate_limited'}" ++ [10; 10];
                                   jsq "data: {'delta':'lo'}" ++ [10; 10]] false)))
  = (msgs ++ [MkMsg user input;
              MkMsg assistant (LF ++ lit "[error] rate_limited" ++ lit "lo")], false).
Proof.
  intros Htrim. unfold StreamPage.send. rewrite Htrim.
  cbn [res_ok res_body chunks read_fails]. cbv zeta.
  do 2 send_chunk. by rewrite <- app_assoc.
Qed.

(** [ssePost] has no branch for [error]: such a frame yields nothing, and
    the transcript of [handleSend] shows no trace of it. *)
Lemma ssePost_drops_error (R : Runtime) :
  Sse.ssePost
    (MkFetch true (Some (MkStream [jsq "data: {'delta':'Hel'}" ++ [10; 10];
                                   jsq "data: {'error':'rate_limited'}" ++ [10; 10]] false)))
  = ([Json.JStr (lit "Hel")], false).
Proof. vm_compute; reflexivity. Qed.

(** C4, amended.  In [send], a line whose payload parses to an object with
    a truthy [error] appends a line feed, [[error] ] and the error as a
    string to the accumulated text and writes the text to the trailing
    assistant message; the consumption of lines goes on.  After the frames
    [data: {"delta":"Hel"}] and [data: {"error":"rate_limited"}] and the
    end of the stream, the assistant message holds [Hel] and the
    annotation. *)
Theorem send_records_error
    (R : Runtime) (line payload s : jsstr) (members : list (jsstr * Json.json))
    (e : Json.json) (st : StreamPage.State) :
  StreamPage.payload_of line = Some payload ->
  Json.parse payload = Some (Json.JObj members) ->
  Json.member (lit "error") members = Some e ->
  Json.truthy (Some e) = true ->
  Json.to_string e = Some s ->
  let a := StreamPage.assistant_text st ++ LF ++ lit "[error] " ++ s in
  StreamPage.on_line line st
  = (StreamPage.MkState (StreamPage.write_last a (StreamPage.messages st))
                        (StreamPage.streaming st) a, true)
  /\ forall (msgs : list ChatMsg) (input : jsstr),
       trim input <> [] ->
       StreamPage.send input msgs false
         (MkFetch true (Some (MkStream [jsq "data: {'delta':'Hel'}" ++ [10; 10];
                                        jsq "data: {'error':'rate_limited'}" ++ [10; 10]]
                                       false)))
       = (msgs ++ [MkMsg user input;
                   MkMsg assistant (lit "Hel" ++ LF ++ lit "[error] rate_limited")], false).
Proof.
  intros Hp Hj He Ht Hs a. split.
  - apply (on_line_payload line payload a st); [done| |by eapply accumulate_error].
    apply eqb_neq. intros ->.
    assert (Json.parse (lit "[DONE]") = None) as Hn by (vm_compute; reflexivity).
    congruence.
  - intros msgs input Htrim.
    destruct (trim input) as [|c text] eqn:E; [done|].
    unfold StreamPage.send. rewrite E.
    cbn [res_ok res_body chunks read_fails]. cbv zeta.
    do 2 send_chunk. by rewrite <- app_assoc.
Qed.

Lemma send_records_error_witness :
  let line := jsq "data: {'error':'rate_limited'}" in
  let st := StreamPage.MkState [MkMsg user (lit "hi"); MkMsg assistant (lit "Hel")]
                               true (lit "Hel") in
  let a := lit "Hel" ++ LF ++ lit "[error] rate_limited" in
  @StreamPage.on_line Reference.runtime line st
  = (StreamPage.MkState [MkMsg user (lit "hi"); MkMsg assistant a] true a, true).
Proof.
  intros line st a.
  apply (send_records_error Reference.runtime line (jsq "{'error':'rate_limited'}")
           (lit "rate_limited") [(lit "error", Json.JStr (lit "rate_limited"))]
           (Json.JStr (lit "rate_limited")) st);
    vm_compute; reflexivity.
Defined.

(** ** Lines, frames and payloads *)


(** [send] does test every line, but trims the payload on both sides where
    one space was to be removed. *)
Lemma send_trims_payload :
  StreamPage.payload_of (lit "data:  [DONE] ") = Some (lit "[DONE]")
  /\ Spec.strip_marker (lit "data:  [DONE] ") = lit " [DONE] ".
Proof. split; vm_compute; reflexivity. Qed.

Section PayloadFacts.

Context {R : Runtime}.





End PayloadFacts.


